(** * Hospital directory server: normalizer, classifier, store and queries

    A shallow embedding of [server.js].  JavaScript strings are modelled by
    Rocq strings whose characters stand for the code units U+0000..U+00FF;
    values of a parsed CSV row by a small type of JavaScript primitives;
    objects used as dictionaries by [gmap]; arrays and [Set]s that the
    server shares between calls by cells of an explicit heap; exceptions and
    mutation by a state-and-exception monad. *)

From Stdlib Require Import ZArith NArith Ascii String List Lia Sorted Permutation.
From stdpp Require Import base option list gmap strings fin_maps.

Open Scope string_scope.
Open Scope Z_scope.

(** ** JavaScript strings *)

Module Js.

(** Code unit of a character. *)
Definition code (c : ascii) : N := N_of_ascii c.

(** [String.prototype.toLowerCase] on one code unit below U+0100: the
    upper-case letters are A-Z, U+00C0..U+00D6 and U+00D8..U+00DE, each
    mapped to the code unit 32 places further. *)
Definition lowerChar (c : ascii) : ascii :=
  let n := code c in
  if ((65 <=? n) && (n <=? 90) ||
      (192 <=? n) && (n <=? 222) && negb (n =? 215))%N
  then ascii_of_N (n + 32) else c.

Fixpoint toLowerCase (s : string) : string :=
  match s with
  | EmptyString => EmptyString
  | String c s' => String (lowerChar c) (toLowerCase s')
  end.

(** WhiteSpace and LineTerminator code units below U+0100: TAB, LF, VT, FF,
    CR, SP and NBSP. *)
Definition isWhiteSpace (c : ascii) : bool :=
  let n := code c in
  ((9 <=? n) && (n <=? 13) || (n =? 32) || (n =? 160))%N.

Fixpoint trimStart (s : string) : string :=
  match s with
  | String c s' => if isWhiteSpace c then trimStart s' else s
  | EmptyString => EmptyString
  end.

Fixpoint trimEnd (s : string) : string :=
  match s with
  | EmptyString => EmptyString
  | String c s' =>
      match trimEnd s' with
      | EmptyString => if isWhiteSpace c then EmptyString else String c EmptyString
      | r => String c r
      end
  end.

(** [String.prototype.trim]. *)
Definition trim (s : string) : string := trimEnd (trimStart s).

(** [s.includes(sub)]: [sub] occurs in [s] at some position. *)
Fixpoint includes (s sub : string) : bool :=
  String.prefix sub s ||
  match s with
  | EmptyString => false
  | String _ s' => includes s' sub
  end.

(** Value of a digit in radix up to 36. *)
Definition digitValue (c : ascii) : option Z :=
  let n := Z.of_N (code c) in
  if (48 <=? n) && (n <=? 57) then Some (n - 48)
  else if (97 <=? n) && (n <=? 122) then Some (n - 87)
  else if (65 <=? n) && (n <=? 90) then Some (n - 55)
  else None.

(** The longest prefix of radix-[r] digits, as a number; [acc] is [None]
    until a digit has been read. *)
Fixpoint parseDigits (r : Z) (s : string) (acc : option Z) : option Z :=
  match s with
  | EmptyString => acc
  | String c s' =>
      match digitValue c with
      | Some d =>
          if d <? r then parseDigits r s' (Some (default 0 acc * r + d))
          else acc
      | None => acc
      end
  end.

(** [parseInt(s)] with no radix argument: leading white space is skipped,
    a sign is read, a [0x]/[0X] prefix selects radix 16, and the longest
    prefix of digits gives the value.  [None] is NaN.  The value is the
    mathematical integer; the server only compares it with 10 and 2, and
    rounding to a double is monotone and keeps small integers exact, so
    the comparisons are those of the source. *)
Definition parseInt (s : string) : option Z :=
  let s1 := trimStart s in
  let '(sign, s2) :=
    match s1 with
    | String "-" r => (-1, r)
    | String "+" r => (1, r)
    | _ => (1, s1)
    end in
  let '(radix, s3) :=
    match s2 with
    | String "0" (String "x" r) => (16, r)
    | String "0" (String "X" r) => (16, r)
    | _ => (10, s2)
    end in
  match parseDigits radix s3 None with
  | Some n => Some (sign * n)
  | None => None
  end.

(** [parseInt(s) > k]; a comparison with NaN is false. *)
Definition parseIntGt (s : string) (k : Z) : bool :=
  match parseInt s with
  | Some n => k <? n
  | None => false
  end.

(** Primitive values a parsed row can hold. *)
Inductive value : Type :=
  | VUndefined
  | VNull
  | VBool (b : bool)
  | VNumber (n : Z)
  | VString (s : string).

#[global] Instance value_eq_dec : EqDecision value.
Proof. solve_decision. Defined.

(** ToBoolean. *)
Definition truthy (v : value) : bool :=
  match v with
  | VUndefined | VNull => false
  | VBool b => b
  | VNumber n => negb (n =? 0)
  | VString s => negb (String.eqb s "")
  end.

(** A property read that gave [undefined] ([None]) or a string. *)
Definition truthyS (o : option string) : bool :=
  match o with
  | Some s => negb (String.eqb s "")
  | None => false
  end.

Inductive exn : Type :=
  | TypeError.

(** Outcome of an expression: a value or a thrown exception. *)
Inductive result (A : Type) : Type :=
  | Ok (a : A)
  | Throw (e : exn).
Arguments Ok {A} a.
Arguments Throw {A} e.

#[global] Instance result_ret : MRet result := @Ok.
#[global] Instance result_bind : MBind result := fun A B f m =>
  match m with
  | Ok a => f a
  | Throw e => Throw e
  end.

(** [a && b] where the operands may throw: [b] is evaluated only when [a]
    is truthy. *)
Definition and_then (a b : result bool) : result bool :=
  match a with
  | Ok true => b
  | Ok false => Ok false
  | Throw e => Throw e
  end.

End Js.

Export Js.

Notation "a <&&> b" := (and_then a b) (at level 41, left associativity).

(** ** Record Normalizer *)

(** A row as the CSV parser delivers it: an object from column names to
    values. *)
Abbreviation RawRow := (gmap string value).

(** A sanitized row: every value is a string. *)
Abbreviation NormalizedRow := (gmap string string).

(** [v === s] for a string [s]. *)
Definition strictEquals (v : value) (s : string) : bool :=
  match v with
  | VString s' => String.eqb s' s
  | _ => false
  end.

(** [v.trim()]: only strings have a [trim] method, and calling it on a
    truthy value of another type throws a TypeError. *)
Definition callTrim (v : value) : result string :=
  match v with
  | VString s => Ok (trim s)
  | _ => Throw TypeError
  end.

(** The right-hand side of line 33:
    [(!data[key] || data[key] === '0') ? '' : data[key].trim()]. *)
Definition sanitizeValue (v : value) : result string :=
  if negb (truthy v) || strictEquals v "0" then Ok "" else callTrim v.

(** [result[key] = value] of line 34, on the object that [const result = {}]
    created, for a string [value].  Under every key but one the assignment
    creates or overwrites the property.  The key "__proto__" names the
    accessor that the object inherits from [Object.prototype]: the assignment
    calls its setter, which ignores a value that is neither an object nor
    null, so no property is stored and the object is as it was. *)
Definition assign (key : string) (value : string) (result : NormalizedRow) :
    NormalizedRow :=
  if String.eqb key "__proto__" then result else <[key := value]> result.

(** What reading [result[key]] as an own property gives once [value] has
    been assigned under [key]. *)
Definition stored (key : string) (value : string) : option string :=
  if String.eqb key "__proto__" then None else Some value.

(** [sanitizeData]: the [for (const key in data)] loop, filling [result]
    one key at a time.  The value of line 33 is computed, and may throw,
    before the assignment of line 34. *)
Definition sanitizeData (data : RawRow) : result NormalizedRow :=
  map_fold
    (fun key v (acc : result NormalizedRow) =>
       res ← acc;
       value ← sanitizeValue v;
       Ok (assign key value res))
    (Ok ∅) data.

(** ** Hospital records *)

Module Hospital.
Record t : Type := mk {
  id : option string;
  name : option string;
  coordinates : option string;
  location : option string;
  category : option string;
  careType : option string;
  medicine : option string;
  address : option string;
  state : option string;
  district : option string;
  subdistrict : option string;
  pincode : option string;
  telephone : option string;
  mobile : option string;
  emergency : option string;
  ambulance : option string;
  bloodbank : option string;
  email : option string;
  website : option string;
  specialties : option string;
  facilities : option string;
  totalBeds : option string;
  privateWards : option string;
  doctors : option string
}.
End Hospital.

Abbreviation hospital := Hospital.t.

(** The object literal of lines 65-90; a column missing from the row reads
    as [undefined], here [None]. *)
Definition makeHospital (rawHospital : NormalizedRow) : hospital :=
  {| Hospital.id := rawHospital !! "Sr_No";
     Hospital.name := rawHospital !! "Hospital_Name";
     Hospital.coordinates := rawHospital !! "Location_Coordinates";
     Hospital.location := rawHospital !! "Location";
     Hospital.category := rawHospital !! "Hospital_Category";
     Hospital.careType := rawHospital !! "Hospital_Care_Type";
     Hospital.medicine := rawHospital !! "Discipline_Systems_of_Medicine";
     Hospital.address := rawHospital !! "Address_Original_First_Line";
     Hospital.state := rawHospital !! "State";
     Hospital.district := rawHospital !! "District";
     Hospital.subdistrict := rawHospital !! "Subdistrict";
     Hospital.pincode := rawHospital !! "Pincode";
     Hospital.telephone := rawHospital !! "Telephone";
     Hospital.mobile := rawHospital !! "Mobile_Number";
     Hospital.emergency := rawHospital !! "Emergency_Num";
     Hospital.ambulance := rawHospital !! "Ambulance_Phone_No";
     Hospital.bloodbank := rawHospital !! "Bloodbank_Phone_No";
     Hospital.email := rawHospital !! "Hospital_Primary_Email_Id";
     Hospital.website := rawHospital !! "Website";
     Hospital.specialties := rawHospital !! "Specialties";
     Hospital.facilities := rawHospital !! "Facilities";
     Hospital.totalBeds := rawHospital !! "Total_Num_Beds";
     Hospital.privateWards := rawHospital !! "Number_Private_Wards";
     Hospital.doctors := rawHospital !! "Number_Doctor" |}.

(** ** Qualification Classifier *)

(** [field.toLowerCase().includes(sub)]: a TypeError when the field is
    [undefined]. *)
Definition lowerIncludes (field : option string) (sub : string) : result bool :=
  match field with
  | Some s => Ok (includes (toLowerCase s) sub)
  | None => Throw TypeError
  end.

(** [!field.toLowerCase().includes(sub)]. *)
Definition lacks (field : option string) (sub : string) : result bool :=
  b ← lowerIncludes field sub; Ok (negb b).

(** [field?.toLowerCase().includes(sub)], as a condition: the chain stops
    with [undefined], which is falsy, when the field is [undefined]. *)
Definition optIncludes (field : option string) (sub : string) : bool :=
  match field with
  | Some s => includes (toLowerCase s) sub
  | None => false
  end.

(** [!field?.toLowerCase().includes(sub)]. *)
Definition optLacks (field : option string) (sub : string) : result bool :=
  Ok (negb (optIncludes field sub)).

(** [field && parseInt(field) > k]. *)
Definition exceeds (field : option string) (k : Z) : result bool :=
  Ok (truthyS field) <&&> Ok (parseIntGt (default "" field) k).

(** Lines 93-117 of the condition: the checks on the text fields, conjunct
    by conjunct in source order. *)
Definition textChecks (h : hospital) : result bool :=
  Ok (truthyS (Hospital.name h)) <&&>
  Ok (truthyS (Hospital.medicine h)) <&&>
  lowerIncludes (Hospital.medicine h) "allopathy" <&&>
  lacks (Hospital.category h) "dispensary" <&&>
  lacks (Hospital.category h) "nursing home" <&&>
  lacks (Hospital.name h) "children" <&&>
  lacks (Hospital.name h) "child" <&&>
  optLacks (Hospital.specialties h) "pediatric" <&&>
  optLacks (Hospital.specialties h) "children" <&&>
  lacks (Hospital.name h) "nursing home" <&&>
  lacks (Hospital.name h) "nursing" <&&>
  lacks (Hospital.name h) "nursing home" <&&>
  lacks (Hospital.name h) "nursinghome" <&&>
  lacks (Hospital.name h) "nursing-home" <&&>
  lacks (Hospital.name h) "nursing_home" <&&>
  lacks (Hospital.category h) "nursing" <&&>
  optLacks (Hospital.careType h) "nursing" <&&>
  lacks (Hospital.name h) "clinic" <&&>
  lacks (Hospital.name h) "dispensary" <&&>
  lacks (Hospital.name h) "health center" <&&>
  lacks (Hospital.name h) "health centre" <&&>
  lacks (Hospital.name h) "healthcare center" <&&>
  lacks (Hospital.name h) "healthcare centre".

(** The whole condition of the [if] of lines 93-120. *)
Definition qualifies (h : hospital) : result bool :=
  textChecks h <&&>
  exceeds (Hospital.totalBeds h) 10 <&&>
  exceeds (Hospital.doctors h) 2.

(** ** The server's memory *)

Definition loc : Type := positive.

(** Objects the server keeps behind references.  Hospital objects are
    never written after their creation and are kept as values. *)
Inductive cell : Type :=
  | CArray (hs : list hospital)    (* an array of hospital objects *)
  | CStrings (ss : list string)    (* an array of strings *)
  | CSet (ss : list string).       (* a [Set] of strings, in insertion order *)

(** The heap and the three module-level variables of lines 22-24. *)
Record server : Type := mkServer {
  heap : gmap loc cell;
  next : loc;
  hospitals : loc;
  districts : loc;
  states : loc
}.

(** Computations that read and write the server and may throw.  The state
    reached when an exception is thrown is kept: nothing is rolled back. *)
Definition M (A : Type) : Type := server -> result A * server.

#[global] Instance M_ret : MRet M := fun A a σ => (Ok a, σ).
#[global] Instance M_bind : MBind M := fun A B f m σ =>
  match m σ with
  | (Ok a, σ') => f a σ'
  | (Throw e, σ') => (Throw e, σ')
  end.

Definition lift {A} (r : result A) : M A := fun σ => (r, σ).

(** [try { body } catch (error) { handler }]. *)
Definition try_catch {A} (body : M A) (handler : exn -> M A) : M A := fun σ =>
  match body σ with
  | (Ok a, σ') => (Ok a, σ')
  | (Throw e, σ') => handler e σ'
  end.

(** Allocation of a new cell, and assignment to a cell. *)
Definition extend (c : cell) (σ : server) : server :=
  mkServer (<[next σ := c]> (heap σ)) (Pos.succ (next σ))
           (hospitals σ) (districts σ) (states σ).

Definition update (l : loc) (c : cell) (σ : server) : server :=
  mkServer (<[l := c]> (heap σ)) (next σ)
           (hospitals σ) (districts σ) (states σ).

Definition alloc (c : cell) : M loc := fun σ => (Ok (next σ), extend c σ).

Definition store (l : loc) (c : cell) : M unit := fun σ => (Ok (), update l c σ).

Definition readArray (l : loc) : M (list hospital) := fun σ =>
  match heap σ !! l with
  | Some (CArray hs) => (Ok hs, σ)
  | _ => (Throw TypeError, σ)
  end.

Definition readStrings (l : loc) : M (list string) := fun σ =>
  match heap σ !! l with
  | Some (CStrings ss) => (Ok ss, σ)
  | _ => (Throw TypeError, σ)
  end.

Definition readSet (l : loc) : M (list string) := fun σ =>
  match heap σ !! l with
  | Some (CSet ss) => (Ok ss, σ)
  | _ => (Throw TypeError, σ)
  end.

(** Reading and assigning the variable [hospitals]. *)
Definition getHospitals : M loc := fun σ => (Ok (hospitals σ), σ).
Definition getDistricts : M loc := fun σ => (Ok (districts σ), σ).
Definition getStates : M loc := fun σ => (Ok (states σ), σ).
Definition setHospitals (l : loc) : M unit := fun σ =>
  (Ok (), mkServer (heap σ) (next σ) l (districts σ) (states σ)).

(** ** Arrays and sets *)

(** [array.filter(p)]: a new array. *)
Definition arrayFilter (p : hospital -> bool) (l : loc) : M loc :=
  hs ← readArray l; alloc (CArray (List.filter p hs)).

(** [array.push(h)]. *)
Definition arrayPush (l : loc) (h : hospital) : M unit :=
  hs ← readArray l; store l (CArray (hs ++ [h])).

(** [set.add(s)]: nothing changes when [s] is a member already. *)
Definition addToSet (s : string) (ss : list string) : list string :=
  if bool_decide (s ∈ ss) then ss else ss ++ [s].

Definition setAdd (l : loc) (s : string) : M unit :=
  ss ← readSet l; store l (CSet (addToSet s ss)).

(** [new Set(array)] as the sequence of its members. *)
Definition toSet (ss : list string) : list string :=
  fold_left (fun acc s => addToSet s acc) ss [].

(** [Array.prototype.sort(comparefn)], which ECMAScript 2019 and later
    require to be stable: with a consistent comparator the outcome is the
    one stable sorted arrangement, computed here by insertion.  [x] comes
    from the left of [l] and is placed before the first element that it
    does not exceed. *)
Fixpoint insertBy {A} (cmp : A -> A -> result Z) (x : A) (l : list A)
  : result (list A) :=
  match l with
  | [] => Ok [x]
  | y :: l' =>
      c ← cmp x y;
      if c <=? 0 then Ok (x :: y :: l')
      else r ← insertBy cmp x l'; Ok (y :: r)
  end.

Fixpoint sortBy {A} (cmp : A -> A -> result Z) (l : list A) : result (list A) :=
  match l with
  | [] => Ok []
  | x :: l' => r ← sortBy cmp l'; insertBy cmp x r
  end.

(** Sorting in place.  Where the comparator throws the array is left as it
    was (ECMAScript leaves its order to the implementation then). *)
Definition arraySort (cmp : hospital -> hospital -> result Z) (l : loc) : M unit :=
  hs ← readArray l;
  sorted ← lift (sortBy cmp hs);
  store l (CArray sorted).

(** The default comparator of [sort()]: strings by their code units. *)
Definition defaultCompare (a b : string) : Z :=
  match String.compare a b with
  | Lt => -1
  | Eq => 0
  | Gt => 1
  end.

Definition stringsSort (l : loc) : M unit :=
  ss ← readStrings l;
  sorted ← lift (sortBy (fun a b => Ok (defaultCompare a b)) ss);
  store l (CStrings sorted).

(** ** Ingestion *)

Fixpoint forEach {A} (f : A -> M unit) (l : list A) : M unit :=
  match l with
  | [] => mret ()
  | x :: l' => f x;; forEach f l'
  end.

(** Lines 124-129: [if (field && field.trim()) set.add(field.trim())]. *)
Definition collect (set : M loc) (field : option string) : M unit :=
  if truthyS field && truthyS (trim <$> field)
  then l ← set; setAdd l (trim (default "" field))
  else mret ().

(** The handler of the stream's [data] event, lines 60-135.  What the
    [catch] block writes to the console is not part of the state. *)
Definition onData (results : loc) (data : RawRow) : M unit :=
  try_catch
    (rawHospital ← lift (sanitizeData data);
     let hospital := makeHospital rawHospital in
     accepted ← lift (qualifies hospital);
     if accepted : bool then
       arrayPush results hospital;;
       collect getDistricts (Hospital.district hospital);;
       collect getStates (Hospital.state hospital)
     else mret ())
    (fun error => mret ()).

(** [loadHospitalData], with the stream run to its end: [None] is a CSV
    file that does not exist, [Some rows] the rows the parser emits before
    the [end] event, whose handler assigns [hospitals]. *)
Definition loadHospitalData (csv : option (list RawRow)) : M unit :=
  results ← alloc (CArray []);
  try_catch
    (match csv with
     | None => mret ()
     | Some rows => forEach (onData results) rows;; setHospitals results
     end)
    (fun error => mret ()).

(** The server before the load: lines 22-24. *)
Definition initial : server :=
  mkServer (<[1%positive := CArray []]> (<[2%positive := CSet []]>
             (<[3%positive := CSet []]> ∅)))
           4%positive 1%positive 2%positive 3%positive.

(** ** Query Engine *)

Inductive body : Type :=
  | Hospitals (hs : list hospital)
  | OneHospital (h : hospital)
  | Strings (ss : list string)
  | Error (message : string).

(** [res.status(code).json(body)]; [res.json(body)] has status 200. *)
Record response : Type := respond { status : Z; json : body }.

(** The parameter when it is truthy. *)
Definition provided (param : option string) : option string :=
  match param with
  | Some s => if String.eqb s "" then None else Some s
  | None => None
  end.

(** [field && field.toLowerCase() === s.toLowerCase()]. *)
Definition lowerEquals (field : option string) (s : string) : bool :=
  truthyS field &&
  String.eqb (toLowerCase (default "" field)) (toLowerCase s).

(** [field && field.toLowerCase().includes(s.toLowerCase())]. *)
Definition lowerContains (field : option string) (s : string) : bool :=
  truthyS field &&
  includes (toLowerCase (default "" field)) (toLowerCase s).

(** [h.subdistrict?.toLowerCase().includes(locality.toLowerCase())]. *)
Definition inLocality (locality : string) (h : hospital) : bool :=
  optIncludes (Hospital.subdistrict h) (toLowerCase locality).

(** The comparator of lines 213-220. *)
Definition localityCompare (locality : string) (a b : hospital) : result Z :=
  let aInLocality := inLocality locality a in
  let bInLocality := inLocality locality b in
  if aInLocality && negb bInLocality then Ok (-1)
  else if negb aInLocality && bInLocality then Ok 1
  else Ok 0.

(** [field.toLowerCase() === s.toLowerCase()] on a field that may be
    [undefined]. *)
Definition exactMatch (field : option string) (s : string) : result bool :=
  match field with
  | Some n => Ok (String.eqb (toLowerCase n) (toLowerCase s))
  | None => Throw TypeError
  end.

(** [h.id === id]. *)
Definition idIs (id : string) (h : hospital) : bool :=
  match Hospital.id h with
  | Some i => String.eqb i id
  | None => false
  end.

Definition listAll : M response :=
  try_catch
    (l ← getHospitals;
     hs ← readArray l;
     mret (respond 200 (Hospitals hs)))
    (fun error => mret (respond 500 (Error "Failed to retrieve hospitals"))).

Definition byDistrict (district : string) (locality : option string) : M response :=
  try_catch
    (match provided (Some district) with
     | None => mret (respond 400 (Error "District parameter is required"))
     | Some district =>
         l ← getHospitals;
         filteredHospitals ←
           arrayFilter (fun h => lowerEquals (Hospital.district h) district) l;
         match provided locality with
         | Some locality => arraySort (localityCompare locality) filteredHospitals
         | None => mret ()
         end;;
         hs ← readArray filteredHospitals;
         mret (respond 200 (Hospitals hs))
     end)
    (fun error =>
       mret (respond 500 (Error "Failed to retrieve hospitals by district"))).

Definition byState (state : string) : M response :=
  try_catch
    (match provided (Some state) with
     | None => mret (respond 400 (Error "State parameter is required"))
     | Some state =>
         l ← getHospitals;
         filteredHospitals ←
           arrayFilter (fun h => lowerEquals (Hospital.state h) state) l;
         hs ← readArray filteredHospitals;
         mret (respond 200 (Hospitals hs))
     end)
    (fun error =>
       mret (respond 500 (Error "Failed to retrieve hospitals by state"))).

(** Lines 259-264.  The arrays between [filter] and the spread are
    temporaries that nothing else refers to; the spread array is the one
    sorted in place. *)
Definition districtsForState (state : string) : M response :=
  try_catch
    (match provided (Some state) with
     | None => mret (respond 400 (Error "State parameter is required"))
     | Some state =>
         l ← getHospitals;
         inState ← arrayFilter (fun h => lowerEquals (Hospital.state h) state) l;
         hs ← readArray inState;
         stateDistricts ←
           alloc (CStrings
                    (toSet (omap (fun h => provided (Hospital.district h)) hs)));
         stringsSort stateDistricts;;
         ss ← readStrings stateDistricts;
         mret (respond 200 (Strings ss))
     end)
    (fun error =>
       mret (respond 500 (Error "Failed to retrieve districts by state"))).

(** [[...set].sort()], lines 330 and 340. *)
Definition sortedMembers (set : M loc) (failure : string) : M response :=
  try_catch
    (l ← set;
     members ← readSet l;
     copy ← alloc (CStrings members);
     stringsSort copy;;
     ss ← readStrings copy;
     mret (respond 200 (Strings ss)))
    (fun error => mret (respond 500 (Error failure))).

Definition allDistricts : M response :=
  sortedMembers getDistricts "Failed to retrieve districts".

Definition allStates : M response :=
  sortedMembers getStates "Failed to retrieve states".

Definition byId (id : string) : M response :=
  try_catch
    (match provided (Some id) with
     | None => mret (respond 400 (Error "Hospital ID is required"))
     | Some id =>
         l ← getHospitals;
         hs ← readArray l;
         match List.find (idIs id) hs with
         | None => mret (respond 404 (Error "Hospital not found"))
         | Some h => mret (respond 200 (OneHospital h))
         end
     end)
    (fun error =>
       mret (respond 500 (Error "Failed to retrieve hospital details"))).

Definition byLocality (locality : string) : M response :=
  try_catch
    (match provided (Some locality) with
     | None => mret (respond 400 (Error "Locality parameter is required"))
     | Some locality =>
         l ← getHospitals;
         filteredHospitals ←
           arrayFilter
             (fun h => lowerContains (Hospital.subdistrict h) locality) l;
         hs ← readArray filteredHospitals;
         mret (respond 200 (Hospitals hs))
     end)
    (fun error =>
       mret (respond 500 (Error "Failed to retrieve hospitals by locality"))).

Section Search.

(** [a.localeCompare(b)]: the collation of the host's locale, which the
    program does not define. *)
Variable localeCompare : string -> string -> Z.

(** [field.localeCompare(other)] on fields that may be [undefined]. *)
Definition fieldCompare (a b : option string) : result Z :=
  match a, b with
  | Some x, Some y => Ok (localeCompare x y)
  | Some x, None => Ok (localeCompare x "undefined")
  | None, _ => Throw TypeError
  end.

(** The comparator of lines 301-318. *)
Definition relevanceCompare (query : string) (locality : option string)
    (a b : hospital) : result Z :=
  aExactMatch ← exactMatch (Hospital.name a) query;
  bExactMatch ← exactMatch (Hospital.name b) query;
  if aExactMatch && negb bExactMatch then Ok (-1)
  else if negb aExactMatch && bExactMatch then Ok 1
  else
    let byName := fieldCompare (Hospital.name a) (Hospital.name b) in
    match provided locality with
    | Some locality =>
        let aInLocality := inLocality locality a in
        let bInLocality := inLocality locality b in
        if aInLocality && negb bInLocality then Ok (-1)
        else if negb aInLocality && bInLocality then Ok 1
        else byName
    | None => byName
    end.

Definition search (query district locality : option string) : M response :=
  try_catch
    (match provided query with
     | None => mret (respond 400 (Error "Search query is required"))
     | Some query =>
         l ← getHospitals;
         filteredHospitals ←
           arrayFilter (fun h => lowerContains (Hospital.name h) query) l;
         filteredHospitals ←
           match provided district with
           | Some district =>
               arrayFilter
                 (fun h => lowerEquals (Hospital.district h) district)
                 filteredHospitals
           | None => mret filteredHospitals
           end;
         filteredHospitals ←
           match provided locality with
           | Some locality =>
               arrayFilter
                 (fun h => lowerContains (Hospital.subdistrict h) locality)
                 filteredHospitals
           | None => mret filteredHospitals
           end;
         arraySort (relevanceCompare query locality) filteredHospitals;;
         hs ← readArray filteredHospitals;
         mret (respond 200 (Hospitals hs))
     end)
    (fun error => mret (respond 500 (Error "Failed to search for hospitals"))).

(** The operations of the Query Engine and their dispatch, for requests
    whose query parameters occur at most once each: a route parameter is a
    string, and such a query parameter is absent or a string.  A parameter
    that is repeated or written with brackets reaches the handler as an
    array or an object; [byDistrictQuery] and [searchQuery] below are the
    two handlers that read query parameters, on values of any of these
    types. *)
Inductive request : Type :=
  | ListAll
  | ByDistrict (district : string) (locality : option string)
  | ByState (state : string)
  | DistrictsForState (state : string)
  | Search (query district locality : option string)
  | AllDistricts
  | AllStates
  | ById (id : string)
  | ByLocality (locality : string).

Definition handle (r : request) : M response :=
  match r with
  | ListAll => listAll
  | ByDistrict district locality => byDistrict district locality
  | ByState state => byState state
  | DistrictsForState state => districtsForState state
  | Search query district locality => search query district locality
  | AllDistricts => allDistricts
  | AllStates => allStates
  | ById id => byId id
  | ByLocality locality => byLocality locality
  end.

End Search.

(** ** Query parameters of any type *)

(** A value of [req.query].  The query parser gives a string for a
    parameter that occurs once; for a parameter that is repeated or written
    with brackets ([?query=a&query=b], [?query[k]=v]) it gives an array or
    an object, which is truthy and has no [toLowerCase] method. *)
Inductive param : Type :=
  | Absent
  | Text (s : string)
  | Compound.

#[global] Instance param_eq_dec : EqDecision param.
Proof. solve_decision. Defined.


(** [if (p)]. *)
Definition given (p : param) : bool :=
  match p with
  | Absent => false
  | Text s => negb (String.eqb s "")
  | Compound => true
  end.

(** [p.toLowerCase()]. *)
Definition lowerOf (p : param) : result string :=
  match p with
  | Text s => Ok (toLowerCase s)
  | _ => Throw TypeError
  end.

(** [field && field.toLowerCase() === p.toLowerCase()]: the right operand
    of [&&] is evaluated only when the field is truthy. *)
Definition equalsParam (field : option string) (p : param) : result bool :=
  if truthyS field
  then s ← lowerOf p; Ok (String.eqb (toLowerCase (default "" field)) s)
  else Ok false.

(** [field && field.toLowerCase().includes(p.toLowerCase())]. *)
Definition containsParam (field : option string) (p : param) : result bool :=
  if truthyS field
  then s ← lowerOf p; Ok (includes (toLowerCase (default "" field)) s)
  else Ok false.

(** [h.subdistrict?.toLowerCase().includes(p.toLowerCase())]: the chain
    stops, before the argument is evaluated, when the field is
    [undefined]. *)
Definition inLocalityParam (p : param) (h : hospital) : result bool :=
  match Hospital.subdistrict h with
  | Some sd => s ← lowerOf p; Ok (includes (toLowerCase sd) s)
  | None => Ok false
  end.

(** [field.toLowerCase() === p.toLowerCase()]. *)
Definition exactMatchParam (field : option string) (p : param) : result bool :=
  match field with
  | Some n => s ← lowerOf p; Ok (String.eqb (toLowerCase n) s)
  | None => Throw TypeError
  end.

(** [array.filter(callback)] with a callback that may throw: it is called
    on the elements in order. *)
Fixpoint filterR {A} (p : A -> result bool) (l : list A) : result (list A) :=
  match l with
  | [] => Ok []
  | x :: l' =>
      b ← p x;
      r ← filterR p l';
      Ok (if b : bool then x :: r else r)
  end.

Definition arrayFilterR (p : hospital -> result bool) (l : loc) : M loc :=
  hs ← readArray l;
  kept ← lift (filterR p hs);
  alloc (CArray kept).

(** The comparator of lines 213-220. *)
Definition localityCompareParam (locality : param) (a b : hospital)
    : result Z :=
  aInLocality ← inLocalityParam locality a;
  bInLocality ← inLocalityParam locality b;
  if aInLocality && negb bInLocality then Ok (-1)
  else if negb aInLocality && bInLocality then Ok 1
  else Ok 0.

(** The handler of lines 198-228, on a locality of any type. *)
Definition byDistrictQuery (district : string) (locality : param)
    : M response :=
  try_catch
    (match provided (Some district) with
     | None => mret (respond 400 (Error "District parameter is required"))
     | Some district =>
         l ← getHospitals;
         filteredHospitals ←
           arrayFilter (fun h => lowerEquals (Hospital.district h) district) l;
         (if given locality
          then arraySort (localityCompareParam locality) filteredHospitals
          else mret ());;
         hs ← readArray filteredHospitals;
         mret (respond 200 (Hospitals hs))
     end)
    (fun error =>
       mret (respond 500 (Error "Failed to retrieve hospitals by district"))).

Section SearchQuery.
Variable localeCompare : string -> string -> Z.

(** The comparator of lines 301-318. *)
Definition relevanceCompareParam (query locality : param) (a b : hospital)
    : result Z :=
  aExactMatch ← exactMatchParam (Hospital.name a) query;
  bExactMatch ← exactMatchParam (Hospital.name b) query;
  if aExactMatch && negb bExactMatch then Ok (-1)
  else if negb aExactMatch && bExactMatch then Ok 1
  else
    let byName :=
      fieldCompare localeCompare (Hospital.name a) (Hospital.name b) in
    if given locality then
      aInLocality ← inLocalityParam locality a;
      bInLocality ← inLocalityParam locality b;
      if aInLocality && negb bInLocality then Ok (-1)
      else if negb aInLocality && bInLocality then Ok 1
      else byName
    else byName.

(** The handler of lines 274-325, on parameters of any type. *)
Definition searchQuery (query district locality : param) : M response :=
  try_catch
    (if negb (given query)
     then mret (respond 400 (Error "Search query is required"))
     else
       l ← getHospitals;
       filteredHospitals ←
         arrayFilterR (fun h => containsParam (Hospital.name h) query) l;
       filteredHospitals ←
         (if given district
          then arrayFilterR
                 (fun h => equalsParam (Hospital.district h) district)
                 filteredHospitals
          else mret filteredHospitals);
       filteredHospitals ←
         (if given locality
          then arrayFilterR
                 (fun h => containsParam (Hospital.subdistrict h) locality)
                 filteredHospitals
          else mret filteredHospitals);
       arraySort (relevanceCompareParam query locality) filteredHospitals;;
       hs ← readArray filteredHospitals;
       mret (respond 200 (Hospitals hs)))
    (fun error => mret (respond 500 (Error "Failed to search for hospitals"))).


End SearchQuery.

(** ** Statements in the words of the specification *)

(** The Normalizer's rule for one value: falsy values and the literal "0"
    become the empty string, any other text is trimmed. *)
Definition normalized (v : value) : string :=
  match v with
  | VString s => if String.eqb s "" || String.eqb s "0" then "" else trim s
  | _ => ""
  end.


(** Normalization followed by classification of one row. *)
Definition rowOutcome (data : RawRow) : result bool :=
  rawHospital ← sanitizeData data; qualifies (makeHospital rawHospital).

(** The record [h] with other bed and doctor counts. *)
Definition withCounts (h : hospital) (beds doctors : option string) : hospital :=
  {| Hospital.id := Hospital.id h;
     Hospital.name := Hospital.name h;
     Hospital.coordinates := Hospital.coordinates h;
     Hospital.location := Hospital.location h;
     Hospital.category := Hospital.category h;
     Hospital.careType := Hospital.careType h;
     Hospital.medicine := Hospital.medicine h;
     Hospital.address := Hospital.address h;
     Hospital.state := Hospital.state h;
     Hospital.district := Hospital.district h;
     Hospital.subdistrict := Hospital.subdistrict h;
     Hospital.pincode := Hospital.pincode h;
     Hospital.telephone := Hospital.telephone h;
     Hospital.mobile := Hospital.mobile h;
     Hospital.emergency := Hospital.emergency h;
     Hospital.ambulance := Hospital.ambulance h;
     Hospital.bloodbank := Hospital.bloodbank h;
     Hospital.email := Hospital.email h;
     Hospital.website := Hospital.website h;
     Hospital.specialties := Hospital.specialties h;
     Hospital.facilities := Hospital.facilities h;
     Hospital.totalBeds := beds;
     Hospital.privateWards := Hospital.privateWards h;
     Hospital.doctors := doctors |}.

(** The row of the specification's end-to-end scenario, and the same row
    without its [Hospital_Category] column. *)
Definition cityGeneralNoCategory : RawRow :=
  <["Hospital_Name" := VString "City General Hospital"]>
  (<["Discipline_Systems_of_Medicine" := VString "Allopathy"]>
  (<["Total_Num_Beds" := VString "50"]>
  (<["Number_Doctor" := VString "10"]>
  (<["State" := VString "Maharashtra"]>
  (<["District" := VString "Pune"]> ∅))))).

Definition cityGeneral : RawRow :=
  <["Hospital_Category" := VString "General"]> cityGeneralNoCategory.

(** A row whose only cell is a zero between two spaces. *)
Definition paddedZeroRow : RawRow := <["Total_Num_Beds" := VString " 0 "]> ∅.

(** A comparator is consistent when it orders its arguments the same way
    in both directions and transitively, which is what ECMAScript asks of
    the function given to [sort] and of [localeCompare]. *)
Class Consistent {A} (f : A -> A -> Z) : Prop := {
  compare_flip : forall a b, Z.sgn (f b a) = - Z.sgn (f a b);
  compare_trans : forall a b c, f a b <= 0 -> f b c <= 0 -> f a c <= 0
}.

(** The comparator call came back with 0: a tie. *)
Definition returnsZero (c : result Z) : bool :=
  match c with
  | Ok 0 => true
  | _ => false
  end.

(** The members of [l] that satisfy [p], then the others, both in the
    order of [l]. *)
Definition stablePartition {A} (p : A -> bool) (l : list A) : list A :=
  (List.filter p l ++ List.filter (fun x => negb (p x)) l)%list.

(** The three cells that make up the Directory Store. *)
Definition directoryStore (σ : server)
  : option cell * option cell * option cell :=
  (heap σ !! hospitals σ, heap σ !! districts σ, heap σ !! states σ).

(** The three variables refer to cells that have been allocated. *)
Definition allocated (σ : server) : Prop :=
  Pos.lt (hospitals σ) (next σ) /\
  Pos.lt (districts σ) (next σ) /\
  Pos.lt (states σ) (next σ).

(** [σ'] has the variables of [σ] and, unchanged, every cell that [σ]
    had allocated. *)
Definition preserves (σ σ' : server) : Prop :=
  hospitals σ' = hospitals σ /\
  districts σ' = districts σ /\
  states σ' = states σ /\
  Pos.le (next σ) (next σ') /\
  forall l, Pos.lt l (next σ) -> heap σ' !! l = heap σ !! l.

(** [m] keeps [σ0]: run from any state that preserves [σ0] it ends in such
    a state, and a value it returns satisfies [Q]. *)
Definition keeps {A} (σ0 : server) (m : M A) (Q : A -> Prop) : Prop :=
  forall σ, preserves σ0 σ ->
    preserves σ0 (m σ).2 /\ forall a, (m σ).1 = Ok a -> Q a.

(** A cell allocated after [σ0]. *)
Definition fresh (σ0 : server) (l : loc) : Prop := Pos.le (next σ0) l.

(** ** The Query Engine as functions of the store *)

(** [name] equals the query, case-insensitively. *)
Definition nameIs (query : string) (h : hospital) : bool :=
  match Hospital.name h with
  | Some n => String.eqb (toLowerCase n) (toLowerCase query)
  | None => false
  end.

(** The candidate set of a search: name contains the query, then the
    optional district and locality filters. *)
Definition candidates (query : string) (district locality : option string)
    (hs : list hospital) : list hospital :=
  let byName :=
    List.filter (fun h => lowerContains (Hospital.name h) query) hs in
  let byDistrict :=
    match provided district with
    | Some d => List.filter (fun h => lowerEquals (Hospital.district h) d) byName
    | None => byName
    end in
  match provided locality with
  | Some l =>
      List.filter (fun h => lowerContains (Hospital.subdistrict h) l) byDistrict
  | None => byDistrict
  end.

(** [[...strings].sort()]. *)
Definition sortedStrings (ss : list string) : result (list string) :=
  sortBy (fun a b => Ok (defaultCompare a b)) ss.

Section Answer.
Variable localeCompare : string -> string -> Z.

(** The three-level order of a search: exact name matches first, then, if
    a locality was given, records in that locality, then names in the
    order of the collation. *)
Definition relevance (query : string) (locality : option string)
    (a b : hospital) : Z :=
  let byName :=
    localeCompare (default "" (Hospital.name a)) (default "" (Hospital.name b)) in
  if nameIs query a && negb (nameIs query b) then -1
  else if negb (nameIs query a) && nameIs query b then 1
  else match provided locality with
       | Some l =>
           if inLocality l a && negb (inLocality l b) then -1
           else if negb (inLocality l a) && inLocality l b then 1
           else byName
       | None => byName
       end.

(** [a] may stand before [b] in a search result. *)
Definition precedes (query : string) (locality : option string)
    (a b : hospital) : Prop :=
  (nameIs query a = true /\ nameIs query b = false) \/
  (nameIs query a = nameIs query b /\
   ((exists l, provided locality = Some l /\
               inLocality l a = true /\ inLocality l b = false) \/
    ((forall l, provided locality = Some l ->
                inLocality l a = inLocality l b) /\
     localeCompare (default "" (Hospital.name a))
                   (default "" (Hospital.name b)) <= 0))).

(** What each operation answers on a store of records [hs], district set
    [ds] and state set [ss]. *)
Definition answer (r : request) (hs : list hospital) (ds ss : list string)
  : response :=
  match r with
  | ListAll => respond 200 (Hospitals hs)
  | ByDistrict district locality =>
      match provided (Some district) with
      | None => respond 400 (Error "District parameter is required")
      | Some d =>
          let found :=
            List.filter (fun h => lowerEquals (Hospital.district h) d) hs in
          respond 200
            (Hospitals match provided locality with
                       | Some l => stablePartition (inLocality l) found
                       | None => found
                       end)
      end
  | ByState state =>
      match provided (Some state) with
      | None => respond 400 (Error "State parameter is required")
      | Some s =>
          respond 200
            (Hospitals
               (List.filter (fun h => lowerEquals (Hospital.state h) s) hs))
      end
  | DistrictsForState state =>
      match provided (Some state) with
      | None => respond 400 (Error "State parameter is required")
      | Some s =>
          match
            sortedStrings
              (toSet (omap (fun h => provided (Hospital.district h))
                        (List.filter
                           (fun h => lowerEquals (Hospital.state h) s) hs)))
          with
          | Ok sorted => respond 200 (Strings sorted)
          | Throw _ =>
              respond 500 (Error "Failed to retrieve districts by state")
          end
      end
  | Search query district locality =>
      match provided query with
      | None => respond 400 (Error "Search query is required")
      | Some q =>
          match
            sortBy (relevanceCompare localeCompare q locality)
                   (candidates q district locality hs)
          with
          | Ok sorted => respond 200 (Hospitals sorted)
          | Throw _ => respond 500 (Error "Failed to search for hospitals")
          end
      end
  | AllDistricts =>
      match sortedStrings ds with
      | Ok sorted => respond 200 (Strings sorted)
      | Throw _ => respond 500 (Error "Failed to retrieve districts")
      end
  | AllStates =>
      match sortedStrings ss with
      | Ok sorted => respond 200 (Strings sorted)
      | Throw _ => respond 500 (Error "Failed to retrieve states")
      end
  | ById id =>
      match provided (Some id) with
      | None => respond 400 (Error "Hospital ID is required")
      | Some i =>
          match List.find (idIs i) hs with
          | Some h => respond 200 (OneHospital h)
          | None => respond 404 (Error "Hospital not found")
          end
      end
  | ByLocality locality =>
      match provided (Some locality) with
      | None => respond 400 (Error "Locality parameter is required")
      | Some l =>
          respond 200
            (Hospitals
               (List.filter
                  (fun h => lowerContains (Hospital.subdistrict h) l) hs))
      end
  end.

End Answer.

(** [field] equals [s] case-insensitively; an absent field equals
    nothing. *)
Definition fieldEquals (field : option string) (s : string) : bool :=
  match field with
  | Some f => String.eqb (toLowerCase f) (toLowerCase s)
  | None => false
  end.

(** A small directory for the examples. *)
Definition sampleRow (id name district subdistrict : string) : RawRow :=
  <["Sr_No" := VString id]>
  (<["Hospital_Name" := VString name]>
  (<["District" := VString district]>
  (<["Subdistrict" := VString subdistrict]>
  (<["State" := VString "Maharashtra"]>
  (<["Hospital_Category" := VString "General"]>
  (<["Discipline_Systems_of_Medicine" := VString "Allopathy"]>
  (<["Total_Num_Beds" := VString "50"]>
  (<["Number_Doctor" := VString "10"]> ∅)))))))).

Definition sampleRows : list RawRow :=
  [ sampleRow "1" "Sahyadri Hospital" "Pune" "Haveli";
    sampleRow "2" "New Apollo Hospital" "Pune" "Kothrud";
    cityGeneralNoCategory;
    sampleRow "3" "Apollo Hospital Annexe" "PUNE" " Haveli ";
    sampleRow "4" "Apollo Hospital" "Pune" "Kothrud" ].

Definition sampleHospital (id name district subdistrict : string) : hospital :=
  makeHospital (normalized <$> sampleRow id name district subdistrict).

Definition sampleStore : list hospital :=
  [ sampleHospital "1" "Sahyadri Hospital" "Pune" "Haveli";
    sampleHospital "2" "New Apollo Hospital" "Pune" "Kothrud";
    sampleHospital "3" "Apollo Hospital Annexe" "PUNE" "Haveli";
    sampleHospital "4" "Apollo Hospital" "Pune" "Kothrud" ].

Definition sampleServer : server :=
  (loadHospitalData (Some sampleRows) initial).2.

(** ** The store that a load builds *)

(** The record a row contributes, if it is accepted. *)
Definition accept (data : RawRow) : option hospital :=
  match sanitizeData data with
  | Ok rawHospital =>
      match qualifies (makeHospital rawHospital) with
      | Ok true => Some (makeHospital rawHospital)
      | _ => None
      end
  | Throw _ => None
  end.

(** A district or state set after it has seen [field]. *)
Definition noted (field : option string) (set : list string) : list string :=
  if truthyS field && truthyS (trim <$> field)
  then addToSet (trim (default "" field)) set
  else set.

(** Records, districts and states after one more row, and after a
    sequence of rows. *)
Definition ingest (store : list hospital * list string * list string)
    (data : RawRow) : list hospital * list string * list string :=
  match accept data with
  | Some h =>
      ((store.1.1 ++ [h])%list,
       noted (Hospital.district h) store.1.2,
       noted (Hospital.state h) store.2)
  | None => store
  end.

Definition ingestAll (rows : list RawRow)
    (store : list hospital * list string * list string)
  : list hospital * list string * list string :=
  fold_left ingest rows store.

(** The server holds the records [hs], the districts [ds] and the states
    [ss]. *)
Definition holds (σ : server) (hs : list hospital) (ds ss : list string) : Prop :=
  heap σ !! hospitals σ = Some (CArray hs) /\
  heap σ !! districts σ = Some (CSet ds) /\
  heap σ !! states σ = Some (CSet ss).

(** The state in the middle of a load that collects into the array [r]. *)
Record loading (r d s n : loc) (σ : server)
    (store : list hospital * list string * list string) : Prop := {
  loading_districts : districts σ = d;
  loading_states : states σ = s;
  loading_next : next σ = n;
  loading_results : heap σ !! r = Some (CArray store.1.1);
  loading_ds : heap σ !! d = Some (CSet store.1.2);
  loading_ss : heap σ !! s = Some (CSet store.2)
}.

(** ** Further statements *)

(** A row with a number where the parser would give text. *)
Definition numberRow : RawRow := <["Total_Num_Beds" := VNumber 50]> cityGeneral.

(** The words that the classifier looks for in a name, without those that
    contain another word of the list. *)
Definition nameStopWords : list string :=
  [ "child"; "nursing"; "clinic"; "dispensary"; "health center";
    "health centre"; "healthcare center"; "healthcare centre" ].

(** A record like that of the scenario under another name. *)
Definition renamed (name : string) : hospital :=
  makeHospital (<["Hospital_Name" := name]> (normalized <$> cityGeneral)).

(** [field], when it is truthy and stays so when trimmed, contributes its
    trimmed value [x] to a district or state set. *)
Definition contributes (field : option string) (x : string) : Prop :=
  x <> "" /\ exists f, field = Some f /\ trim f = x.

(** The record [h] is part of the response. *)
Definition served (resp : response) (h : hospital) : Prop :=
  match json resp with
  | Hospitals hs => In h hs
  | OneHospital h' => h' = h
  | _ => False
  end.

(** ** Hospital details with cost estimates *)

(** [s.split(sep)] for a separator of one character: the pieces between
    the separators, of which there is always at least one. *)
Fixpoint split (sep : ascii) (s : string) : list string :=
  match s with
  | EmptyString => [EmptyString]
  | String c s' =>
      if Ascii.eqb c sep then EmptyString :: split sep s'
      else match split sep s' with
           | piece :: pieces => String c piece :: pieces
           | [] => [String c EmptyString]
           end
  end.

(** [field ? field.split(',').map(f => f.trim()) : []], lines 394-395. *)
Definition splitTrimmed (field : option string) : list string :=
  if truthyS field then List.map trim (split "," (default "" field)) else [].

(** The object [costEstimates] of lines 385-396, its nested objects
    [baseTreatment] and [roomRent] flattened. *)
Module CostEstimates.
Record t : Type := mk {
  baseTreatmentMin : Z;
  baseTreatmentMax : Z;
  roomRentStandard : Z;
  roomRentDeluxe : Z;
  facilities : list string;
  specialties : list string
}.
End CostEstimates.

Definition costEstimates (h : hospital) : CostEstimates.t :=
  {| CostEstimates.baseTreatmentMin :=
       if optIncludes (Hospital.careType h) "government" then 200000 else 400000;
     CostEstimates.baseTreatmentMax :=
       if optIncludes (Hospital.careType h) "government" then 400000 else 800000;
     CostEstimates.roomRentStandard := 2000;
     CostEstimates.roomRentDeluxe := 5000;
     CostEstimates.facilities := splitTrimmed (Hospital.facilities h);
     CostEstimates.specialties := splitTrimmed (Hospital.specialties h) |}.

(** The body of a details response: [{...hospital, costEstimates}], or an
    error. *)
Inductive detailsBody : Type :=
  | Details (h : hospital) (estimates : CostEstimates.t)
  | DetailsError (message : string).

Record detailsResponse : Type :=
  respondDetails { detailsStatus : Z; detailsJson : detailsBody }.

(** The handler of [/api/hospitals/:id/details], lines 370-406. *)
Definition details (id : string) : M detailsResponse :=
  try_catch
    (match provided (Some id) with
     | None => mret (respondDetails 400 (DetailsError "Hospital ID is required"))
     | Some id =>
         l ← getHospitals;
         hs ← readArray l;
         match List.find (idIs id) hs with
         | None => mret (respondDetails 404 (DetailsError "Hospital not found"))
         | Some h => mret (respondDetails 200 (Details h (costEstimates h)))
         end
     end)
    (fun error =>
       mret (respondDetails 500
               (DetailsError "Failed to retrieve hospital details"))).

(** The details response that corresponds to a response of [byId]. *)
Definition withEstimates (resp : response) : detailsResponse :=
  respondDetails (status resp)
    match json resp with
    | OneHospital h => Details h (costEstimates h)
    | Error message => DetailsError message
    | Hospitals _ | Strings _ => DetailsError ""
    end.



(** ** Requests *)


(** The request with its text parameters in lower case; an identifier is
    left as it is. *)
Definition lowerRequest (r : request) : request :=
  match r with
  | ByDistrict district locality =>
      ByDistrict (toLowerCase district) (toLowerCase <$> locality)
  | ByState state => ByState (toLowerCase state)
  | DistrictsForState state => DistrictsForState (toLowerCase state)
  | Search query district locality =>
      Search (toLowerCase <$> query) (toLowerCase <$> district)
             (toLowerCase <$> locality)
  | ByLocality locality => ByLocality (toLowerCase locality)
  | ListAll | AllDistricts | AllStates | ById _ => r
  end.


(** The record passes the optional district and locality filters of a
    search. *)
Definition passesFilters (district locality : option string) (h : hospital)
  : bool :=
  match provided district with
  | Some d => lowerEquals (Hospital.district h) d
  | None => true
  end &&
  match provided locality with
  | Some l => lowerContains (Hospital.subdistrict h) l
  | None => true
  end.

(** A record with facilities, specialties and a care type. *)
Definition equipped : hospital :=
  makeHospital
    (<["Sr_No" := "7"]>
     (<["Facilities" := "ICU, Pharmacy ,Blood Bank"]>
      (<["Specialties" := "Oncology"]>
       (<["Hospital_Care_Type" := "Government Hospital"]>
        (normalized <$> cityGeneral))))).

(** ** Decimal numerals *)

(** The numeral with the decimal digits [ds], and its value. *)
Definition digitChar (d : nat) : ascii := ascii_of_nat (48 + d).








(** A store in which a record without a subdistrict (its row has no
    [Subdistrict] column) comes before a record of the same district that
    has one. *)
Definition sparseRows : list RawRow :=
  [ delete "Subdistrict" (sampleRow "1" "Sahyadri Hospital" "Pune" "");
    sampleRow "2" "New Apollo Hospital" "Pune" "Kothrud" ].

Definition sparseStore : list hospital :=
  [ makeHospital
      (normalized <$>
         delete "Subdistrict" (sampleRow "1" "Sahyadri Hospital" "Pune" ""));
    sampleHospital "2" "New Apollo Hospital" "Pune" "Kothrud" ].

Definition sparseServer : server :=
  (loadHospitalData (Some sparseRows) initial).2.

(** A row with an own key "__proto__", as [JSON.parse] or a computed key
    in an object literal creates. *)
Definition protoRow : RawRow :=
  <["__proto__" := VString " x "]> (<["b" := VString " y "]> ∅).


(** * Properties *)

(** ** Strings *)

Example toLowerCase_ex : toLowerCase "Nursing HOME" = "nursing home".
Proof. reflexivity. Qed.
Example trim_ex : trim "  a b  " = "a b".
Proof. reflexivity. Qed.
Example includes_ex : includes "general hospital" "hosp" = true.
Proof. reflexivity. Qed.
Example parseInt_ex1 : parseInt "50 beds" = Some 50.
Proof. reflexivity. Qed.
Example parseInt_ex2 : parseInt "beds" = None.
Proof. reflexivity. Qed.
Example parseInt_ex3 : parseInt "-0x1f" = Some (-31).
Proof. reflexivity. Qed.

Example sanitize_ex : sanitizeData cityGeneral =
  Ok (fmap normalized cityGeneral).
Proof. vm_compute. reflexivity. Qed.
Example rowOutcome_ex : rowOutcome cityGeneral = Ok true.
Proof. vm_compute. reflexivity. Qed.
Example rowOutcome_ex2 : rowOutcome cityGeneralNoCategory = Throw TypeError.
Proof. vm_compute. reflexivity. Qed.

(** ** Record Normalizer *)


Lemma lookup_assign (key k : string) (value : string) (r : NormalizedRow) :
  assign k value r !! key =
    if decide (k = key /\ k <> "__proto__") then Some value else r !! key.
Proof.
  unfold assign. destruct (String.eqb_spec k "__proto__") as [->|Hne].
  - case_decide as H; [|done]. now destruct H.
  - case_decide as H.
    + destruct H as [-> _]. now rewrite lookup_insert_eq.
    + rewrite lookup_insert_ne; [done|]. intros ->. now apply H.
Qed.

(** What the loop of [sanitizeData] computes: either every value is
    sanitized, and stored under its own key unless that key is "__proto__",
    or some value throws. *)
Lemma sanitizeData_spec (data : RawRow) :
  match sanitizeData data with
  | Ok r =>
      forall key,
        match data !! key with
        | Some v => exists s, sanitizeValue v = Ok s /\ r !! key = stored key s
        | None => r !! key = None
        end
  | Throw e => exists key v, data !! key = Some v /\ sanitizeValue v = Throw e
  end.
Proof.
  unfold sanitizeData.
  apply (map_fold_weak_ind (fun (acc : result NormalizedRow) (m : RawRow) =>
    match acc with
    | Ok r =>
        forall key,
          match m !! key with
          | Some v => exists s, sanitizeValue v = Ok s /\ r !! key = stored key s
          | None => r !! key = None
          end
    | Throw e => exists key v, m !! key = Some v /\ sanitizeValue v = Throw e
    end)).
  - intros key. now rewrite !lookup_empty.
  - intros i x m acc Hi IH. destruct acc as [r|e]; simpl.
    + destruct (sanitizeValue x) as [s|e] eqn:Hx; simpl.
      * intros key. rewrite lookup_assign.
        destruct (decide (i = key)) as [->|Hne].
        -- rewrite lookup_insert_eq. exists s. split; [done|].
           unfold stored. specialize (IH key). rewrite Hi in IH.
           destruct (String.eqb_spec key "__proto__") as [->|Hp].
           ++ case_decide as H; [now destruct H|done].
           ++ case_decide as H; [done|]. now destruct H.
        -- rewrite lookup_insert_ne by done.
           case_decide as H; [now destruct H|]. apply IH.
      * exists i, x. now rewrite lookup_insert_eq.
    + destruct IH as (key & v & Hk & Hv). exists key, v. split; [|done].
      rewrite lookup_insert_ne; [done|]. intros ->. congruence.
Qed.

Lemma stored_other (key s : string) : key <> "__proto__" -> stored key s = Some s.
Proof.
  intros H. unfold stored. now destruct (String.eqb_spec key "__proto__").
Qed.

Lemma stored_Some (key s s' : string) :
  stored key s = Some s' <-> key <> "__proto__" /\ s = s'.
Proof.
  unfold stored. destruct (String.eqb_spec key "__proto__") as [->|H].
  - split; [discriminate|]. now intros [? _].
  - split; [intros [= ->]; done|]. now intros [_ ->].
Qed.






Lemma sanitizeValue_zero v :
  sanitizeValue v = Ok "0" <->
  exists s, v = VString s /\ s <> "0" /\ trim s = "0".
Proof.
  unfold sanitizeValue. split.
  - destruct (truthy v) eqn:Ht; simpl; [|discriminate].
    destruct v as [| | b | n | s]; try discriminate. simpl.
    destruct (String.eqb_spec s "0") as [->|Hne]; [discriminate|].
    intros [= Htrim]. eauto.
  - intros (s & -> & Hne & Htrim). simpl.
    destruct (String.eqb_spec s "") as [->|_]; [discriminate|]. simpl.
    destruct (String.eqb_spec s "0") as [->|_]; [done|]. now rewrite Htrim.
Qed.

(** C2, as stated, fails: the literal "0" is tested before the value is
    trimmed, so " 0 " is normalized to "0". *)
Lemma sanitizeData_padded_zero_survives :
  ~ (forall (data : RawRow) (r : NormalizedRow) (key : string),
       sanitizeData data = Ok r -> r !! key <> Some "0").
Proof.
  intros H.
  apply (H paddedZeroRow (<["Total_Num_Beds" := "0"]> ∅) "Total_Num_Beds").
  - vm_compute. reflexivity.
  - vm_compute. reflexivity.
Qed.

(** C2, amended: a raw value that is exactly "0", under a key other than
    "__proto__", is normalized to "", and a field of the normalized row is
    "0" exactly when its key is not "__proto__" and the raw value is a
    string other than "0" that trims to "0". *)
Theorem sanitizeData_zero (data : RawRow) (r : NormalizedRow) :
  sanitizeData data = Ok r ->
  forall key,
    (key <> "__proto__" ->
     data !! key = Some (VString "0") -> r !! key = Some "") /\
    (r !! key = Some "0" <->
     key <> "__proto__" /\
     exists s, data !! key = Some (VString s) /\ s <> "0" /\ trim s = "0").
Proof.
  intros Hr key. pose proof (sanitizeData_spec data) as H.
  rewrite Hr in H. specialize (H key). split.
  - intros Hne Hk. rewrite Hk in H. destruct H as (s & Hs & ->).
    vm_compute in Hs. injection Hs as <-. now apply stored_other.
  - destruct (data !! key) as [v|] eqn:Hk.
    + destruct H as (s & Hs & ->). rewrite stored_Some. split.
      * intros [Hne ->]. split; [done|]. apply sanitizeValue_zero in Hs.
        destruct Hs as (s & -> & ? & ?). eauto.
      * intros (Hne & s' & [= ->] & Hs' & Htrim). split; [done|].
        assert (sanitizeValue (VString s') = Ok "0") as Hz
          by (apply sanitizeValue_zero; eauto).
        congruence.
    + rewrite H. split; [discriminate|].
      intros (_ & s & ? & _). discriminate.
Qed.

Lemma sanitizeData_zero_witness :
  (<["Total_Num_Beds" := "0"]> ∅ : NormalizedRow) !! "Total_Num_Beds" = Some "0" <->
  "Total_Num_Beds" <> "__proto__" /\
  exists s, paddedZeroRow !! "Total_Num_Beds" = Some (VString s) /\
            s <> "0" /\ trim s = "0".
Proof.
  apply (sanitizeData_zero paddedZeroRow (<["Total_Num_Beds" := "0"]> ∅)).
  vm_compute. reflexivity.
Defined.

(** ** Qualification Classifier *)

Lemma and_then_true (a b : result bool) :
  a <&&> b = Ok true <-> a = Ok true /\ b = Ok true.
Proof.
  split.
  - destruct a as [[]|]; simpl; intros H; try discriminate. done.
  - intros [-> ->]. reflexivity.
Qed.

Lemma exceeds_true (field : option string) (k : Z) :
  exceeds field k = Ok true <->
  exists s n, field = Some s /\ s <> "" /\ parseInt s = Some n /\ k < n.
Proof.
  unfold exceeds, parseIntGt. split.
  - destruct field as [s|]; simpl; [|discriminate].
    destruct (String.eqb_spec s "") as [->|Hne]; simpl; [discriminate|].
    destruct (parseInt s) as [n|] eqn:Hp; [|discriminate].
    intros [= Hlt]. apply Z.ltb_lt in Hlt. exists s, n. done.
  - intros (s & n & -> & Hne & Hp & Hlt). simpl.
    destruct (String.eqb_spec s "") as [->|_]; [done|]. simpl.
    rewrite Hp. f_equal. now apply Z.ltb_lt.
Qed.

Lemma qualifies_true (h : hospital) :
  qualifies h = Ok true <->
  textChecks h = Ok true /\
  exceeds (Hospital.totalBeds h) 10 = Ok true /\
  exceeds (Hospital.doctors h) 2 = Ok true.
Proof. unfold qualifies. rewrite !and_then_true. tauto. Qed.

Lemma textChecks_withCounts (h : hospital) beds doctors :
  textChecks (withCounts h beds doctors) = textChecks h.
Proof. reflexivity. Qed.

(** A record without a category is never accepted: the first check on
    [category] is reached only with a truthy name and medicine field, and
    it throws. *)
Lemma absent_category_never_accepted (h : hospital) :
  Hospital.category h = None -> qualifies h <> Ok true.
Proof.
  intros Hc Hq. apply qualifies_true in Hq. destruct Hq as [Ht _].
  unfold textChecks in Ht. rewrite Hc in Ht.
  repeat (apply and_then_true in Ht; destruct Ht as [Ht ?]).
  match goal with H : lacks None _ = Ok true |- _ => discriminate H end.
Qed.

(** The fields read through [?.] pass their checks when absent. *)
Lemma absent_optional_fields_pass (sub : string) :
  optLacks None sub = Ok true.
Proof. reflexivity. Qed.

(** An absent or empty name, or medicine field, rejects without an
    exception. *)
Lemma absent_name_rejects (h : hospital) :
  truthyS (Hospital.name h) = false -> qualifies h = Ok false.
Proof. intros H. unfold qualifies, textChecks. rewrite H. reflexivity. Qed.

Lemma absent_medicine_rejects (h : hospital) :
  truthyS (Hospital.name h) = true ->
  truthyS (Hospital.medicine h) = false -> qualifies h = Ok false.
Proof. intros H1 H2. unfold qualifies, textChecks. rewrite H1, H2. reflexivity. Qed.

(** C5: the bounds on beds and doctors are strict.  A record whose bed
    count parses to at most 10, or whose doctor count parses to at most 2,
    is not accepted; a record that passes the text checks is accepted with
    11 beds and 3 doctors and rejected with 10 beds. *)
Theorem qualifies_strict_bounds (h : hospital) :
  (forall s n, Hospital.totalBeds h = Some s -> parseInt s = Some n ->
               n <= 10 -> qualifies h <> Ok true) /\
  (forall s n, Hospital.doctors h = Some s -> parseInt s = Some n ->
               n <= 2 -> qualifies h <> Ok true) /\
  (textChecks h = Ok true ->
   qualifies (withCounts h (Some "11") (Some "3")) = Ok true /\
   qualifies (withCounts h (Some "10") (Some "3")) = Ok false).
Proof.
  split; [|split].
  - intros s n Hs Hp Hle Hq. apply qualifies_true in Hq.
    destruct Hq as (_ & Hb & _). apply exceeds_true in Hb.
    destruct Hb as (s' & n' & Hs' & _ & Hp' & Hlt).
    rewrite Hs in Hs'. injection Hs' as <-. rewrite Hp in Hp'.
    injection Hp' as <-. lia.
  - intros s n Hs Hp Hle Hq. apply qualifies_true in Hq.
    destruct Hq as (_ & _ & Hd). apply exceeds_true in Hd.
    destruct Hd as (s' & n' & Hs' & _ & Hp' & Hlt).
    rewrite Hs in Hs'. injection Hs' as <-. rewrite Hp in Hp'.
    injection Hp' as <-. lia.
  - intros Ht. unfold qualifies. rewrite !textChecks_withCounts, Ht.
    split; reflexivity.
Qed.

Lemma qualifies_strict_bounds_witness :
  qualifies (withCounts (makeHospital (normalized <$> cityGeneral))
                        (Some "11") (Some "3")) = Ok true /\
  qualifies (withCounts (makeHospital (normalized <$> cityGeneral))
                        (Some "10") (Some "3")) = Ok false.
Proof.
  apply (qualifies_strict_bounds (makeHospital (normalized <$> cityGeneral))).
  vm_compute. reflexivity.
Defined.

(** ** Ingestion *)

(** The [data] handler, by the outcome of normalization and
    classification: the store is touched only for an accepted row. *)
Lemma onData_outcome (results : loc) (data : RawRow) (σ : server) :
  onData results data σ =
  match sanitizeData data with
  | Ok rawHospital =>
      match qualifies (makeHospital rawHospital) with
      | Ok true =>
          try_catch
            (arrayPush results (makeHospital rawHospital);;
             collect getDistricts (Hospital.district (makeHospital rawHospital));;
             collect getStates (Hospital.state (makeHospital rawHospital)))
            (fun error => mret ()) σ
      | _ => (Ok (), σ)
      end
  | Throw e => (Ok (), σ)
  end.
Proof.
  unfold onData, try_catch, mbind, M_bind, lift at 1.
  destruct (sanitizeData data) as [raw|e]; [|reflexivity].
  unfold lift. destruct (qualifies (makeHospital raw)) as [[]|e]; reflexivity.
Qed.

Lemma onData_raises (results : loc) (data : RawRow) (e : exn) (σ : server) :
  rowOutcome data = Throw e -> onData results data σ = (Ok (), σ).
Proof.
  intros H. rewrite onData_outcome. unfold rowOutcome, mbind, result_bind in H.
  destruct (sanitizeData data) as [raw|]; [|reflexivity].
  now rewrite H.
Qed.

Lemma onData_never_throws (results : loc) (data : RawRow) (σ : server) :
  (onData results data σ).1 = Ok ().
Proof.
  unfold onData, try_catch.
  match goal with |- (match ?b with _ => _ end).1 = _ =>
    destruct b as [[[]|e] σ']; reflexivity end.
Qed.

Lemma forEach_skip (results : loc) (row : RawRow) (e : exn)
    (rows1 rows2 : list RawRow) (σ : server) :
  rowOutcome row = Throw e ->
  forEach (onData results) (rows1 ++ row :: rows2) σ =
  forEach (onData results) (rows1 ++ rows2) σ.
Proof.
  intros Hrow. revert σ. induction rows1 as [|r rows1 IH]; intros σ; simpl.
  - unfold mbind, M_bind. now rewrite (onData_raises _ _ e).
  - unfold mbind, M_bind. destruct (onData results r σ) as [[[]|e'] σ'];
      [apply IH | reflexivity].
Qed.

Lemma loadHospitalData_never_throws (csv : option (list RawRow)) (σ : server) :
  (loadHospitalData csv σ).1 = Ok ().
Proof.
  unfold loadHospitalData, mbind, M_bind, alloc, try_catch.
  match goal with |- (match ?b with _ => _ end).1 = _ =>
    destruct b as [[[]|e] σ']; reflexivity end.
Qed.

(** C8: a row whose normalization or classification raises an error is
    skipped: the load of a row sequence that contains it ends in the same
    server state, hence the same Directory Store, as the load of the
    sequence without it, and the load itself never throws. *)
Theorem failing_row_is_skipped (rows1 rows2 : list RawRow) (row : RawRow)
    (e : exn) (σ : server) :
  rowOutcome row = Throw e ->
  loadHospitalData (Some (rows1 ++ row :: rows2)%list) σ =
  loadHospitalData (Some (rows1 ++ rows2)%list) σ /\
  (loadHospitalData (Some (rows1 ++ row :: rows2)%list) σ).1 = Ok ().
Proof.
  intros Hrow. split; [|apply loadHospitalData_never_throws].
  unfold loadHospitalData, mbind, M_bind, alloc, try_catch.
  now rewrite (forEach_skip _ row e).
Qed.

Lemma failing_row_is_skipped_witness :
  loadHospitalData (Some ([cityGeneral] ++ cityGeneralNoCategory :: [cityGeneral])%list) initial =
  loadHospitalData (Some ([cityGeneral] ++ [cityGeneral])%list) initial /\
  (loadHospitalData (Some ([cityGeneral] ++ cityGeneralNoCategory :: [cityGeneral])%list) initial).1
  = Ok ().
Proof.
  apply (failing_row_is_skipped [cityGeneral] [cityGeneral]
           cityGeneralNoCategory TypeError initial).
  vm_compute. reflexivity.
Defined.

(** C1, on the code: the row of the specification's scenario is accepted
    with its category column, but without that column the check of line 96
    throws a TypeError, the [catch] block takes over and the row is left
    out of the store. *)
Theorem absent_category_row_is_dropped :
  rowOutcome cityGeneral = Ok true /\
  rowOutcome cityGeneralNoCategory = Throw TypeError /\
  forall results σ, onData results cityGeneralNoCategory σ = (Ok (), σ).
Proof.
  split; [vm_compute; reflexivity|]. split; [vm_compute; reflexivity|].
  intros results σ. apply (onData_raises _ _ TypeError).
  vm_compute. reflexivity.
Qed.

Example load_ex :
  directoryStore
    (loadHospitalData (Some [cityGeneral; cityGeneralNoCategory]) initial).2 =
  (Some (CArray [makeHospital (normalized <$> cityGeneral)]),
   Some (CSet ["Pune"]), Some (CSet ["Maharashtra"])).
Proof. vm_compute. reflexivity. Qed.

(** ** Sorting *)

Section Sorting.
Context {A : Type}.

  (** A comparator that tells the members of [p] from the others, as that
      of the district query does, partitions the array. *)
Section Partition.
Variable p : A -> bool.
Variable cmp : A -> A -> result Z.
Hypothesis cmp_groups : forall x y,
      cmp x y = Ok (if p x && negb (p y) then -1
                    else if negb (p x) && p y then 1 else 0).

Lemma insertBy_member (x : A) (l : list A) :
      p x = true -> insertBy cmp x l = Ok (x :: l).
    Proof.
      intros Hx. destruct l as [|y l]; [reflexivity|]. simpl.
      rewrite cmp_groups, Hx. simpl. destruct (p y); reflexivity.
    Qed.

Lemma insertBy_other (x : A) (l1 l2 : list A) :
      p x = false ->
      Forall (fun y => p y = true) l1 ->
      Forall (fun y => p y = false) l2 ->
      insertBy cmp x (l1 ++ l2) = Ok (l1 ++ x :: l2)%list.
    Proof.
      intros Hx H1 H2. induction H1 as [|y l1 Hy _ IH]; simpl.
      - destruct H2 as [|y l2 Hy _]; [reflexivity|]. simpl.
        now rewrite cmp_groups, Hx, Hy.
      - rewrite cmp_groups, Hx, Hy. simpl. now rewrite IH.
    Qed.

Lemma sortBy_partition (l : list A) :
      sortBy cmp l = Ok (stablePartition p l).
    Proof.
      unfold stablePartition. induction l as [|x l IH]; [reflexivity|].
      simpl. rewrite IH. simpl. destruct (p x) eqn:Hx; simpl.
      - now apply insertBy_member.
      - apply insertBy_other; [done| |]; apply List.Forall_forall;
          intros y Hy; apply filter_In in Hy; destruct Hy as [_ Hy];
          [done | now apply negb_true_iff].
    Qed.
End Partition.

  (** A consistent comparator that does not throw on the members of the
      array sorts it, and stably. *)
Section Stable.
Variable f : A -> A -> Z.
Context `{!Consistent f}.
Variable cmp : A -> A -> result Z.
Variable dom : A -> Prop.
Hypothesis cmp_f : forall x y, dom x -> dom y -> cmp x y = Ok (f x y).

Lemma compare_tie_sym a b : f a b = 0 -> f b a = 0.
    Proof. intros H. pose proof (compare_flip a b) as Hf. rewrite H in Hf. lia. Qed.

Lemma compare_gt_lt a b : 0 < f a b -> f b a < 0.
    Proof. intros H. pose proof (compare_flip a b) as Hf. lia. Qed.

Lemma tie_excludes_smaller x y z :
      0 < f x y -> f z y = 0 -> f z x <> 0.
    Proof.
      intros Hxy Hzy Hzx. apply compare_tie_sym in Hzx.
      assert (f x y <= 0) by (apply (compare_trans x z y); lia). lia.
    Qed.

Lemma insertBy_sorted (x : A) (l : list A) :
      dom x -> Forall dom l ->
      StronglySorted (fun a b => f a b <= 0) l ->
      exists r,
        insertBy cmp x l = Ok r /\
        Permutation r (x :: l) /\
        StronglySorted (fun a b => f a b <= 0) r /\
        forall z, List.filter (fun y => f z y =? 0) r =
                  List.filter (fun y => f z y =? 0) (x :: l).
    Proof.
      intros Hx Hl Hs. induction l as [|y l IH]; simpl.
      - exists [x]. repeat split; try done.
        repeat constructor.
      - apply Forall_cons_iff in Hl. destruct Hl as [Hy Hl].
        apply StronglySorted_inv in Hs. destruct Hs as [Hs Hyl].
        rewrite cmp_f by done. simpl.
        destruct (Z.leb_spec (f x y) 0) as [Hle|Hgt].
        + exists (x :: y :: l). repeat split; try done.
          constructor; [now constructor|]. constructor; [done|].
          eapply List.Forall_impl; [|exact Hyl]. simpl. intros w Hw.
          now apply (compare_trans x y w).
        + destruct (IH Hl Hs) as (r & Hr & Hperm & Hsorted & Hstable).
          rewrite Hr. simpl. exists (y :: r). split; [done|]. split; [|split].
          * rewrite Hperm. apply perm_swap.
          * constructor; [done|].
            eapply Permutation_Forall; [symmetry; exact Hperm|].
            constructor; [|done]. apply compare_gt_lt in Hgt. lia.
          * intros z. simpl. rewrite Hstable. simpl.
            destruct (Z.eqb_spec (f z y) 0) as [Hzy|_]; [|done].
            destruct (Z.eqb_spec (f z x) 0) as [Hzx|_]; [|done].
            now destruct (tie_excludes_smaller x y z).
    Qed.

Lemma sortBy_sorted (l : list A) :
      Forall dom l ->
      exists r,
        sortBy cmp l = Ok r /\
        Permutation r l /\
        StronglySorted (fun a b => f a b <= 0) r /\
        forall z, List.filter (fun y => f z y =? 0) r =
                  List.filter (fun y => f z y =? 0) l.
    Proof.
      induction l as [|x l IH]; intros Hl; simpl.
      - exists []. repeat split; try done. constructor.
      - apply Forall_cons_iff in Hl. destruct Hl as [Hx Hl].
        destruct (IH Hl) as (r' & Hr' & Hperm' & Hsorted' & Hstable').
        rewrite Hr'. simpl.
        destruct (insertBy_sorted x r') as (r & Hr & Hperm & Hsorted & Hstable);
          [done | | done |].
        { eapply Permutation_Forall; [symmetry; exact Hperm'|done]. }
        exists r. split; [done|]. split; [|split; [done|]].
        + rewrite Hperm. now constructor.
        + intros z. rewrite Hstable. simpl. now rewrite Hstable'.
    Qed.
(** The stable sorted arrangement is unique: whatever algorithm an
    implementation of [sort] uses, with a consistent comparator it ends
    with the array that [sortBy] gives. *)
Lemma stable_sort_unique (r1 r2 : list A) :
  Permutation r1 r2 ->
  StronglySorted (fun a b => f a b <= 0) r1 ->
  StronglySorted (fun a b => f a b <= 0) r2 ->
  (forall z, List.filter (fun y => f z y =? 0) r1 =
             List.filter (fun y => f z y =? 0) r2) ->
  r1 = r2.
Proof.
  revert r2. induction r1 as [|x r1 IH]; intros r2 Hperm H1 H2 Hties.
  - now apply Permutation_nil in Hperm.
  - destruct r2 as [|y r2].
    { symmetry in Hperm. now apply Permutation_nil in Hperm. }
    apply StronglySorted_inv in H1. destruct H1 as [H1 Hx].
    apply StronglySorted_inv in H2. destruct H2 as [H2 Hy].
    rewrite List.Forall_forall in Hx, Hy.
    assert (f x x = 0) as Hxx by (pose proof (compare_flip x x); lia).
    assert (f x y <= 0) as Hxy.
    { assert (In y (x :: r1)) as [<-|Hin]
        by (apply (Permutation_in _ (Permutation_sym Hperm)); now left);
        [lia | now apply Hx]. }
    assert (f y x <= 0) as Hyx.
    { assert (In x (y :: r2)) as [<-|Hin]
        by (apply (Permutation_in _ Hperm); now left);
        [lia | now apply Hy]. }
    assert (f x y = 0) as Htie by (pose proof (compare_flip x y); lia).
    pose proof (Hties x) as Hhead. simpl in Hhead.
    rewrite Hxx, Htie in Hhead. simpl in Hhead. injection Hhead as <- _.
    f_equal. apply IH; [now apply Permutation_cons_inv in Hperm|done|done|].
    intros z. specialize (Hties z). simpl in Hties.
    destruct (f z x =? 0); [now injection Hties|done].
Qed.
End Stable.
End Sorting.

(** ** Computations that keep the store *)

Lemma preserves_refl σ : preserves σ σ.
Proof. unfold preserves. repeat split; done. Qed.

Lemma preserves_store σ σ' :
  allocated σ -> preserves σ σ' ->
  directoryStore σ' = directoryStore σ /\ allocated σ'.
Proof.
  intros (Hh & Hd & Hs) (Eh & Ed & Es & Hn & Hl). split.
  - unfold directoryStore. rewrite Eh, Ed, Es, !Hl by done. reflexivity.
  - unfold allocated. rewrite Eh, Ed, Es. repeat split; lia.
Qed.

Section Keeps.
Context {A B : Type}.
Variable σ0 : server.

Lemma keeps_ret (a : A) (Q : A -> Prop) : Q a -> keeps σ0 (mret a) Q.
  Proof. intros Ha σ Hσ. split; [done|]. now intros a' [= <-]. Qed.

Lemma keeps_weaken (m : M A) (Q R : A -> Prop) :
    keeps σ0 m Q -> (forall a, Q a -> R a) -> keeps σ0 m R.
  Proof.
    intros Hm HQR σ Hσ. destruct (Hm σ Hσ) as [H1 H2]. split; [done|].
    intros a Ha. now apply HQR, H2.
  Qed.

Lemma keeps_bind (m : M A) (f : A -> M B) (Q : A -> Prop) (R : B -> Prop) :
    keeps σ0 m Q -> (forall a, Q a -> keeps σ0 (f a) R) ->
    keeps σ0 (m ≫= f) R.
  Proof.
    intros Hm Hf σ Hσ. unfold mbind, M_bind.
    destruct (Hm σ Hσ) as [H1 H2]. destruct (m σ) as [[a|e] σ']; simpl in *.
    - now apply Hf; [apply H2|].
    - split; [done | discriminate].
  Qed.

Lemma keeps_try (m : M A) (h : exn -> M A) (Q : A -> Prop) :
    keeps σ0 m Q -> (forall e, keeps σ0 (h e) Q) ->
    keeps σ0 (try_catch m h) Q.
  Proof.
    intros Hm Hh σ Hσ. unfold try_catch.
    destruct (Hm σ Hσ) as [H1 H2]. destruct (m σ) as [[a|e] σ']; simpl in *.
    - split; [done|]. intros a' [= <-]. now apply H2.
    - now apply Hh.
  Qed.

Lemma keeps_lift (r : result A) : keeps σ0 (lift r) (fun _ => True).
  Proof. intros σ Hσ. done. Qed.
End Keeps.

Lemma keeps_alloc σ0 (c : cell) : keeps σ0 (alloc c) (fresh σ0).
Proof.
  intros σ (Eh & Ed & Es & Hn & Hl). unfold alloc, fresh; simpl. split.
  - unfold preserves; simpl. repeat split; try done.
    + lia.
    + intros l Hlt. rewrite lookup_insert_ne; [now apply Hl|].
      lia.
  - now intros a [= <-].
Qed.

Lemma keeps_store σ0 (l : loc) (c : cell) :
  fresh σ0 l -> keeps σ0 (store l c) (fun _ => True).
Proof.
  intros Hfresh σ (Eh & Ed & Es & Hn & Hl). unfold store; simpl.
  split; [|done]. unfold preserves; simpl. repeat split; try done.
  intros l' Hlt. rewrite lookup_insert_ne; [now apply Hl|].
  unfold fresh in *. lia.
Qed.

Lemma keeps_readArray σ0 (l : loc) : keeps σ0 (readArray l) (fun _ => True).
Proof. intros σ Hσ. unfold readArray. now destruct (heap σ !! l) as [[]|]. Qed.

Lemma keeps_readStrings σ0 (l : loc) : keeps σ0 (readStrings l) (fun _ => True).
Proof. intros σ Hσ. unfold readStrings. now destruct (heap σ !! l) as [[]|]. Qed.

Lemma keeps_readSet σ0 (l : loc) : keeps σ0 (readSet l) (fun _ => True).
Proof. intros σ Hσ. unfold readSet. now destruct (heap σ !! l) as [[]|]. Qed.

Lemma keeps_getHospitals σ0 : keeps σ0 getHospitals (fun _ => True).
Proof. intros σ Hσ. done. Qed.

Lemma keeps_getDistricts σ0 : keeps σ0 getDistricts (fun _ => True).
Proof. intros σ Hσ. done. Qed.

Lemma keeps_getStates σ0 : keeps σ0 getStates (fun _ => True).
Proof. intros σ Hσ. done. Qed.

(** [filter] gives a new array whatever array it reads. *)
Lemma keeps_arrayFilter σ0 p (l : loc) : keeps σ0 (arrayFilter p l) (fresh σ0).
Proof.
  unfold arrayFilter. eapply keeps_bind; [apply keeps_readArray|].
  intros hs _. apply keeps_alloc.
Qed.

(** Sorting in place an array allocated after [σ0] keeps [σ0]. *)
Lemma keeps_arraySort σ0 cmp (l : loc) :
  fresh σ0 l -> keeps σ0 (arraySort cmp l) (fun _ => True).
Proof.
  intros Hl. unfold arraySort. eapply keeps_bind; [apply keeps_readArray|].
  intros hs _. eapply keeps_bind; [apply keeps_lift|].
  intros sorted _. now apply keeps_store.
Qed.

Lemma keeps_stringsSort σ0 (l : loc) :
  fresh σ0 l -> keeps σ0 (stringsSort l) (fun _ => True).
Proof.
  intros Hl. unfold stringsSort. eapply keeps_bind; [apply keeps_readStrings|].
  intros ss _. eapply keeps_bind; [apply keeps_lift|].
  intros sorted _. now apply keeps_store.
Qed.

Ltac keeps_step :=
  lazymatch goal with
  | |- keeps _ (try_catch _ _) _ => apply keeps_try; [|intros ?]
  | |- keeps _ (mbind _ _) _ => eapply keeps_bind; [|intros ? ?]
  | |- keeps _ (mret _) _ => apply keeps_ret; first [assumption | exact I]
  | |- keeps _ (match ?x with _ => _ end) _ => destruct x
  | |- keeps _ getHospitals _ => apply keeps_getHospitals
  | |- keeps _ getDistricts _ => apply keeps_getDistricts
  | |- keeps _ getStates _ => apply keeps_getStates
  | |- keeps _ (readArray _) _ => apply keeps_readArray
  | |- keeps _ (readStrings _) _ => apply keeps_readStrings
  | |- keeps _ (readSet _) _ => apply keeps_readSet
  | |- keeps _ (alloc _) _ => apply keeps_alloc
  | |- keeps _ (arrayFilter _ _) _ => apply keeps_arrayFilter
  | |- keeps _ (arraySort _ _) _ => apply keeps_arraySort; assumption
  | |- keeps _ (stringsSort _) _ => apply keeps_stringsSort; assumption
  end.

(** Every operation of the Query Engine keeps the state it starts from:
    all it writes are cells it has allocated itself. *)
Lemma keeps_handle localeCompare (r : request) (σ0 : server) :
  keeps σ0 (handle localeCompare r) (fun _ => True).
Proof.
  destruct r; simpl;
    unfold listAll, byDistrict, byState, districtsForState, search,
      allDistricts, allStates, sortedMembers, byId, byLocality;
    repeat keeps_step.
Qed.

(** ** Running the operations on a well-formed store *)

Lemma bind_ok {A B} (m : M A) (f : A -> M B) σ a σ' :
  m σ = (Ok a, σ') -> (m ≫= f) σ = f a σ'.
Proof. intros H. unfold mbind, M_bind. now rewrite H. Qed.

Lemma bind_throw {A B} (m : M A) (f : A -> M B) σ e σ' :
  m σ = (Throw e, σ') -> (m ≫= f) σ = (Throw e, σ').
Proof. intros H. unfold mbind, M_bind. now rewrite H. Qed.

Lemma heap_extend c σ : heap (extend c σ) !! next σ = Some c.
Proof. apply lookup_insert_eq. Qed.

Lemma heap_update l c σ : heap (update l c σ) !! l = Some c.
Proof. apply lookup_insert_eq. Qed.

Lemma getHospitals_run σ : getHospitals σ = (Ok (hospitals σ), σ).
Proof. reflexivity. Qed.

Lemma getDistricts_run σ : getDistricts σ = (Ok (districts σ), σ).
Proof. reflexivity. Qed.

Lemma getStates_run σ : getStates σ = (Ok (states σ), σ).
Proof. reflexivity. Qed.

Lemma readArray_ok l hs σ :
  heap σ !! l = Some (CArray hs) -> readArray l σ = (Ok hs, σ).
Proof. intros H. unfold readArray. now rewrite H. Qed.

Lemma readStrings_ok l ss σ :
  heap σ !! l = Some (CStrings ss) -> readStrings l σ = (Ok ss, σ).
Proof. intros H. unfold readStrings. now rewrite H. Qed.

Lemma readSet_ok l ss σ :
  heap σ !! l = Some (CSet ss) -> readSet l σ = (Ok ss, σ).
Proof. intros H. unfold readSet. now rewrite H. Qed.

Lemma arrayFilter_ok p l hs σ :
  heap σ !! l = Some (CArray hs) ->
  arrayFilter p l σ = (Ok (next σ), extend (CArray (List.filter p hs)) σ).
Proof.
  intros H. unfold arrayFilter. now rewrite (bind_ok _ _ _ _ _ (readArray_ok _ _ _ H)).
Qed.

Lemma arraySort_ok cmp l hs sorted σ :
  heap σ !! l = Some (CArray hs) -> sortBy cmp hs = Ok sorted ->
  arraySort cmp l σ = (Ok (), update l (CArray sorted) σ).
Proof.
  intros H Hs. unfold arraySort.
  rewrite (bind_ok _ _ _ _ _ (readArray_ok _ _ _ H)), Hs. reflexivity.
Qed.

Lemma arraySort_throw cmp l hs e σ :
  heap σ !! l = Some (CArray hs) -> sortBy cmp hs = Throw e ->
  arraySort cmp l σ = (Throw e, σ).
Proof.
  intros H Hs. unfold arraySort.
  rewrite (bind_ok _ _ _ _ _ (readArray_ok _ _ _ H)), Hs. reflexivity.
Qed.

Lemma stringsSort_ok l ss sorted σ :
  heap σ !! l = Some (CStrings ss) -> sortedStrings ss = Ok sorted ->
  stringsSort l σ = (Ok (), update l (CStrings sorted) σ).
Proof.
  intros H Hs. unfold stringsSort. unfold sortedStrings in Hs.
  rewrite (bind_ok _ _ _ _ _ (readStrings_ok _ _ _ H)), Hs. reflexivity.
Qed.

Lemma stringsSort_throw l ss e σ :
  heap σ !! l = Some (CStrings ss) -> sortedStrings ss = Throw e ->
  stringsSort l σ = (Throw e, σ).
Proof.
  intros H Hs. unfold stringsSort. unfold sortedStrings in Hs.
  rewrite (bind_ok _ _ _ _ _ (readStrings_ok _ _ _ H)), Hs. reflexivity.
Qed.

Lemma localityCompare_groups (locality : string) (a b : hospital) :
  localityCompare locality a b =
  Ok (if inLocality locality a && negb (inLocality locality b) then -1
      else if negb (inLocality locality a) && inLocality locality b then 1
      else 0).
Proof.
  unfold localityCompare.
  destruct (inLocality locality a), (inLocality locality b); reflexivity.
Qed.

Create HintDb run.
#[local] Hint Resolve heap_extend heap_update : run.

Ltac run_step :=
  first
    [ rewrite getHospitals_run
    | rewrite getDistricts_run
    | rewrite getStates_run
    | erewrite readArray_ok by eauto with run
    | erewrite readStrings_ok by eauto with run
    | erewrite readSet_ok by eauto with run
    | erewrite arrayFilter_ok by eauto with run
    | erewrite arraySort_ok by eauto with run
    | erewrite arraySort_throw by eauto with run
    | erewrite stringsSort_ok by eauto with run
    | erewrite stringsSort_throw by eauto with run ].

Ltac run :=
  unfold try_catch, mbind, M_bind, mret, M_ret, alloc;
  repeat (cbn beta iota; try run_step).

Section Run.
Variable localeCompare : string -> string -> Z.
Variables (σ : server) (hs : list hospital) (ds ss : list string).
Hypothesis store_hospitals : heap σ !! hospitals σ = Some (CArray hs).
Hypothesis store_districts : heap σ !! districts σ = Some (CSet ds).
Hypothesis store_states : heap σ !! states σ = Some (CSet ss).

#[local] Hint Resolve store_hospitals store_districts store_states : run.

Lemma listAll_answer :
  (listAll σ).1 = Ok (answer localeCompare ListAll hs ds ss).
Proof. unfold listAll. run. reflexivity. Qed.

Lemma byDistrict_answer district locality :
  (byDistrict district locality σ).1 =
  Ok (answer localeCompare (ByDistrict district locality) hs ds ss).
Proof.
  unfold byDistrict. cbn [answer].
  destruct (provided (Some district)) as [d|]; [|reflexivity].
  destruct (provided locality) as [l|].
  - pose proof (sortBy_partition (inLocality l) (localityCompare l)
                  (localityCompare_groups l)) as Hsort.
    run. reflexivity.
  - run. reflexivity.
Qed.

Lemma byState_answer state :
  (byState state σ).1 = Ok (answer localeCompare (ByState state) hs ds ss).
Proof.
  unfold byState. cbn [answer].
  destruct (provided (Some state)) as [s|]; [|reflexivity]. run. reflexivity.
Qed.

Lemma districtsForState_answer state :
  (districtsForState state σ).1 =
  Ok (answer localeCompare (DistrictsForState state) hs ds ss).
Proof.
  unfold districtsForState. cbn [answer].
  destruct (provided (Some state)) as [s|]; [|reflexivity].
  destruct (sortedStrings _) as [sorted|e] eqn:Hsort; run; reflexivity.
Qed.

Lemma search_answer query district locality :
  (search localeCompare query district locality σ).1 =
  Ok (answer localeCompare (Search query district locality) hs ds ss).
Proof.
  unfold search. cbn [answer].
  destruct (provided query) as [q|]; [|reflexivity]. unfold candidates.
  destruct (provided district) as [d|], (provided locality) as [l|] eqn:Hl;
    match goal with
    | |- context [sortBy ?c ?l] => destruct (sortBy c l) as [sorted|e] eqn:Hsort
    end; run; reflexivity.
Qed.

Lemma allDistricts_answer :
  (allDistricts σ).1 = Ok (answer localeCompare AllDistricts hs ds ss).
Proof.
  unfold allDistricts, sortedMembers. cbn [answer].
  destruct (sortedStrings ds) as [sorted|e] eqn:Hsort; run; reflexivity.
Qed.

Lemma allStates_answer :
  (allStates σ).1 = Ok (answer localeCompare AllStates hs ds ss).
Proof.
  unfold allStates, sortedMembers. cbn [answer].
  destruct (sortedStrings ss) as [sorted|e] eqn:Hsort; run; reflexivity.
Qed.

Lemma byId_answer id :
  (byId id σ).1 = Ok (answer localeCompare (ById id) hs ds ss).
Proof.
  unfold byId. cbn [answer].
  destruct (provided (Some id)) as [i|]; [|reflexivity].
  run. destruct (List.find (idIs i) hs); reflexivity.
Qed.

Lemma byLocality_answer locality :
  (byLocality locality σ).1 =
  Ok (answer localeCompare (ByLocality locality) hs ds ss).
Proof.
  unfold byLocality. cbn [answer].
  destruct (provided (Some locality)) as [l|]; [|reflexivity]. run. reflexivity.
Qed.

(** On a store of records [hs] and sets [ds] and [ss], each operation
    responds with its [answer]. *)
Lemma handle_answer (r : request) :
  (handle localeCompare r σ).1 = Ok (answer localeCompare r hs ds ss).
Proof.
  destruct r; cbn [handle].
  - apply listAll_answer.
  - apply byDistrict_answer.
  - apply byState_answer.
  - apply districtsForState_answer.
  - apply search_answer.
  - apply allDistricts_answer.
  - apply allStates_answer.
  - apply byId_answer.
  - apply byLocality_answer.
Qed.

End Run.

(** ** Comparators *)

Lemma toLowerCase_empty (s : string) : toLowerCase s = "" <-> s = "".
Proof. destruct s; simpl; split; congruence. Qed.

Lemma ascii_compare_lt (x y : ascii) :
  Ascii.compare x y = Lt <-> (N_of_ascii x < N_of_ascii y)%N.
Proof. unfold Ascii.compare. apply N.compare_lt_iff. Qed.

Lemma string_compare_trans (a b c : string) :
  String.compare a b <> Gt -> String.compare b c <> Gt ->
  String.compare a c <> Gt.
Proof.
  revert b c. induction a as [|x a IH]; intros [|y b] [|z c]; simpl;
    try congruence.
  destruct (Ascii.compare x y) eqn:Hxy; [| |congruence];
    destruct (Ascii.compare y z) eqn:Hyz; try congruence.
  - apply Ascii.compare_eq_iff in Hxy, Hyz. subst.
    unfold Ascii.compare. rewrite N.compare_refl. apply IH.
  - apply Ascii.compare_eq_iff in Hxy. subst. now rewrite Hyz.
  - apply Ascii.compare_eq_iff in Hyz. subst. now rewrite Hxy.
  - apply ascii_compare_lt in Hxy. apply ascii_compare_lt in Hyz.
    assert (Ascii.compare x z = Lt) as ->; [|congruence].
    apply ascii_compare_lt. exact (N.lt_trans _ _ _ Hxy Hyz).
Qed.

(** The default comparator of [sort] is consistent. *)
#[global] Instance defaultCompare_consistent : Consistent defaultCompare.
Proof.
  split.
  - intros a b. unfold defaultCompare. rewrite (String.compare_antisym a b).
    destruct (String.compare b a); reflexivity.
  - intros a b c. unfold defaultCompare. intros Hab Hbc.
    pose proof (string_compare_trans a b c) as H.
    destruct (String.compare a b), (String.compare b c),
      (String.compare a c); try lia; exfalso; apply H; congruence.
Qed.

Section Relevance.
Variable localeCompare : string -> string -> Z.
Variable query : string.
Variable locality : option string.

Lemma relevanceCompare_named (a b : hospital) :
    is_Some (Hospital.name a) -> is_Some (Hospital.name b) ->
    relevanceCompare localeCompare query locality a b =
    Ok (relevance localeCompare query locality a b).
  Proof.
    intros [na Ha] [nb Hb]. unfold relevanceCompare, relevance, nameIs.
    rewrite Ha, Hb. simpl.
    destruct (String.eqb (toLowerCase na) (toLowerCase query)),
      (String.eqb (toLowerCase nb) (toLowerCase query)); simpl; try reflexivity;
      destruct (provided locality) as [l|]; try reflexivity;
      destruct (inLocality l a), (inLocality l b); reflexivity.
  Qed.

Lemma relevance_precedes (a b : hospital) :
    relevance localeCompare query locality a b <= 0 <->
    precedes localeCompare query locality a b.
  Proof.
    unfold relevance, precedes.
    destruct (nameIs query a), (nameIs query b); simpl;
      destruct (provided locality) as [l|]; simpl;
      try destruct (inLocality l a) eqn:Ea; try destruct (inLocality l b) eqn:Eb;
      simpl; split; intros H;
      repeat match goal with
        | H : _ \/ _ |- _ => destruct H
        | H : _ /\ _ |- _ => destruct H
        | H : exists _, _ |- _ => destruct H
        | H : Some _ = Some _ |- _ => injection H as <-
        | H : forall l, Some _ = Some l -> _ |- _ => specialize (H _ eq_refl)
        end;
      try congruence; try lia;
      try (left; split; reflexivity);
      try (right; split; [reflexivity|]; left; eexists; repeat split; eassumption);
      try (right; split; [reflexivity|]; right; split; [|assumption];
           intros ? ?; congruence).
  Qed.

Context `{!Consistent localeCompare}.

  (** The order of a search is consistent when the collation is. *)
#[global] Instance relevance_consistent :
    Consistent (relevance localeCompare query locality).
  Proof.
    split.
    - intros a b. unfold relevance.
      destruct (nameIs query a), (nameIs query b); simpl; try reflexivity;
        destruct (provided locality) as [l|]; try apply compare_flip;
        destruct (inLocality l a), (inLocality l b); simpl;
        try reflexivity; apply compare_flip.
    - intros a b c. unfold relevance.
      destruct (nameIs query a), (nameIs query b), (nameIs query c); simpl;
        try lia;
        (destruct (provided locality) as [l|]; [|apply compare_trans]);
        destruct (inLocality l a), (inLocality l b), (inLocality l c); simpl;
        try lia; apply compare_trans.
  Qed.
End Relevance.

Example sampleServer_store :
  directoryStore sampleServer =
  (Some (CArray sampleStore), Some (CSet ["Pune"; "PUNE"]),
   Some (CSet ["Maharashtra"])).
Proof. vm_compute. reflexivity. Qed.

(** ** Query Engine *)

Lemma provided_Some (s : string) : s <> "" -> provided (Some s) = Some s.
Proof. intros H. simpl. now destruct (String.eqb_spec s ""). Qed.

Lemma lowerEquals_fieldEquals (field : option string) (s : string) :
  s <> "" -> lowerEquals field s = fieldEquals field s.
Proof.
  intros Hs. unfold lowerEquals, fieldEquals. destruct field as [f|]; [|done].
  cbn [truthyS]. destruct (String.eqb_spec f "") as [->|_]; [|reflexivity].
  cbn [negb andb]. symmetry. apply String.eqb_neq. intros H.
  change (toLowerCase "") with "" in H. symmetry in H.
  apply (proj1 (toLowerCase_empty s)) in H. contradiction.
Qed.

Lemma filter_and {A} (p q : A -> bool) (l : list A) :
  List.filter q (List.filter p l) = List.filter (fun x => p x && q x) l.
Proof.
  induction l as [|x l IH]; [done|]. simpl.
  destruct (p x); simpl; [destruct (q x)|]; now rewrite IH.
Qed.

Lemma find_first {A} (p : A -> bool) (l : list A) :
  match List.find p l with
  | Some x =>
      exists before after,
        l = (before ++ x :: after)%list /\ p x = true /\
        List.Forall (fun y => p y = false) before
  | None => List.Forall (fun y => p y = false) l
  end.
Proof.
  induction l as [|y l IH]; simpl; [constructor|].
  destruct (p y) eqn:Hy.
  - exists [], l. repeat split; [done | constructor].
  - destruct (List.find p l) as [x|].
    + destruct IH as (before & after & -> & Hx & Hb).
      exists (y :: before), after. repeat split; [done | now constructor].
    + now constructor.
Qed.

Lemma idIs_true (id : string) (h : hospital) :
  idIs id h = true <-> Hospital.id h = Some id.
Proof.
  unfold idIs. destruct (Hospital.id h) as [i|]; [|split; discriminate].
  rewrite String.eqb_eq. split; congruence.
Qed.

Lemma idIs_false (id : string) (h : hospital) :
  idIs id h = false <-> Hospital.id h <> Some id.
Proof.
  rewrite <- idIs_true. destruct (idIs id h); split; congruence.
Qed.

Lemma candidates_named query district locality hs :
  List.Forall (fun h => is_Some (Hospital.name h))
              (candidates query district locality hs).
Proof.
  apply List.Forall_forall. intros h Hin.
  assert (lowerContains (Hospital.name h) query = true) as Hc.
  { unfold candidates in Hin.
    destruct (provided locality); [apply filter_In in Hin as [Hin _]|];
      (destruct (provided district); [apply filter_In in Hin as [Hin _]|]);
      now apply filter_In in Hin as [_ Hin]. }
  unfold lowerContains in Hc. destruct (Hospital.name h); [eauto | discriminate].
Qed.

Lemma StronglySorted_iff {A} (R S : A -> A -> Prop) (l : list A) :
  (forall a b, R a b <-> S a b) -> StronglySorted R l -> StronglySorted S l.
Proof.
  intros HRS. induction 1 as [|x l Hl IH Hx]; constructor; [done|].
  eapply List.Forall_impl; [|exact Hx]. intros y. apply HRS.
Qed.

Example sparseServer_store :
  heap sparseServer !! hospitals sparseServer = Some (CArray sparseStore).
Proof. vm_compute. reflexivity. Qed.

(** C3, as stated, fails for the empty locality string: every subdistrict
    contains it, so the stable partition puts the records that have a
    subdistrict before those that have none, while line 212 takes an empty
    locality for none given and leaves the records in the order of the
    store. *)
Lemma byDistrict_empty_locality_keeps_order :
  ~ (forall (σ : server) (hs : list hospital) (D L : string),
       heap σ !! hospitals σ = Some (CArray hs) ->
       D <> "" ->
       (byDistrict D (Some L) σ).1 =
       Ok (respond 200 (Hospitals
         (List.filter
            (fun h => fieldEquals (Hospital.district h) D && inLocality L h)
            hs ++
          List.filter
            (fun h => fieldEquals (Hospital.district h) D &&
                      negb (inLocality L h))
            hs)))).
Proof.
  intros H.
  specialize (H sparseServer sparseStore "pune" "" sparseServer_store).
  assert ("pune" <> "") as HD by discriminate.
  specialize (H HD). vm_compute in H. discriminate.
Qed.

(** C3, amended: with a district given, the district query answers with
    the records of the store whose district equals the given one
    case-insensitively.  With a non-empty locality they come as a stable
    partition: first those whose subdistrict contains the locality, then
    the others, each group in the order of the store (the order in which
    [listAll] answers).  With an empty locality, as with none, they come in
    the order of the store. *)
Theorem byDistrict_stable_partition (σ : server) (hs : list hospital)
    (D L : string) :
  heap σ !! hospitals σ = Some (CArray hs) ->
  D <> "" ->
  (listAll σ).1 = Ok (respond 200 (Hospitals hs)) /\
  (L <> "" ->
   (byDistrict D (Some L) σ).1 =
   Ok (respond 200 (Hospitals
     (List.filter
        (fun h => fieldEquals (Hospital.district h) D && inLocality L h) hs ++
      List.filter
        (fun h => fieldEquals (Hospital.district h) D && negb (inLocality L h))
        hs)))) /\
  (byDistrict D (Some "") σ).1 =
  Ok (respond 200 (Hospitals
    (List.filter (fun h => fieldEquals (Hospital.district h) D) hs))) /\
  (byDistrict D None σ).1 =
  Ok (respond 200 (Hospitals
    (List.filter (fun h => fieldEquals (Hospital.district h) D) hs))).
Proof.
  intros Hhs HD. split; [|split; [|split]].
  - now rewrite (listAll_answer (fun _ _ => 0) σ hs [] []).
  - intros HL. rewrite (byDistrict_answer (fun _ _ => 0) σ hs [] []) by done.
    cbn [answer]. rewrite !provided_Some by done.
    unfold stablePartition. rewrite !filter_and. do 3 f_equal.
    f_equal; apply List.filter_ext; intros h;
      now rewrite lowerEquals_fieldEquals.
  - rewrite (byDistrict_answer (fun _ _ => 0) σ hs [] []) by done.
    cbn [answer]. rewrite provided_Some by done.
    change (provided (Some "")) with (@None string). do 3 f_equal.
    apply List.filter_ext; intros h. now rewrite lowerEquals_fieldEquals.
  - rewrite (byDistrict_answer (fun _ _ => 0) σ hs [] []) by done.
    cbn [answer]. rewrite provided_Some by done.
    change (provided None) with (@None string). do 3 f_equal.
    apply List.filter_ext; intros h. now rewrite lowerEquals_fieldEquals.
Qed.

Lemma byDistrict_stable_partition_witness :
  (byDistrict "pune" (Some "kothrud") sampleServer).1 =
  Ok (respond 200 (Hospitals
    [ sampleHospital "2" "New Apollo Hospital" "Pune" "Kothrud";
      sampleHospital "4" "Apollo Hospital" "Pune" "Kothrud";
      sampleHospital "1" "Sahyadri Hospital" "Pune" "Haveli";
      sampleHospital "3" "Apollo Hospital Annexe" "PUNE" "Haveli" ])) /\
  (byDistrict "pune" (Some "") sampleServer).1 =
  Ok (respond 200 (Hospitals sampleStore)).
Proof.
  destruct (byDistrict_stable_partition sampleServer sampleStore
              "pune" "kothrud") as (_ & H & H0 & _).
  - vm_compute. reflexivity.
  - discriminate.
  - split.
    + rewrite H by discriminate. vm_compute. reflexivity.
    + rewrite H0. vm_compute. reflexivity.
Defined.

(** C7: a lookup by a given identifier answers with the first record of
    the store whose identifier is that string, compared exactly, and with
    the not-found response when the store has no such record; it raises no
    other fault. *)
Theorem byId_first_match (σ : server) (hs : list hospital) (id : string) :
  heap σ !! hospitals σ = Some (CArray hs) ->
  id <> "" ->
  (exists before h after,
     hs = (before ++ h :: after)%list /\
     Hospital.id h = Some id /\
     List.Forall (fun x => Hospital.id x <> Some id) before /\
     (byId id σ).1 = Ok (respond 200 (OneHospital h))) \/
  (List.Forall (fun x => Hospital.id x <> Some id) hs /\
   (byId id σ).1 = Ok (respond 404 (Error "Hospital not found"))).
Proof.
  intros Hhs Hid. rewrite (byId_answer (fun _ _ => 0) σ hs [] []) by done.
  cbn [answer]. rewrite provided_Some by done.
  pose proof (find_first (idIs id) hs) as Hfind.
  destruct (List.find (idIs id) hs) as [h|].
  - left. destruct Hfind as (before & after & -> & Hh & Hb).
    exists before, h, after. repeat split; [now apply idIs_true|].
    eapply List.Forall_impl; [|exact Hb]. intros x. apply idIs_false.
  - right. split; [|done].
    eapply List.Forall_impl; [|exact Hfind]. intros x. apply idIs_false.
Qed.

Lemma byId_first_match_witness :
  (exists before h after,
     sampleStore = (before ++ h :: after)%list /\
     Hospital.id h = Some "3" /\
     List.Forall (fun x => Hospital.id x <> Some "3") before /\
     (byId "3" sampleServer).1 = Ok (respond 200 (OneHospital h))) \/
  (List.Forall (fun x => Hospital.id x <> Some "3") sampleStore /\
   (byId "3" sampleServer).1 = Ok (respond 404 (Error "Hospital not found"))).
Proof.
  apply (byId_first_match sampleServer sampleStore "3").
  - vm_compute. reflexivity.
  - discriminate.
Defined.

Example byId_ex :
  (byId "3" sampleServer).1 =
    Ok (respond 200
          (OneHospital (sampleHospital "3" "Apollo Hospital Annexe" "PUNE" "Haveli"))) /\
  (byId "03" sampleServer).1 = Ok (respond 404 (Error "Hospital not found")) /\
  (byId "" sampleServer).1 = Ok (respond 400 (Error "Hospital ID is required")).
Proof. vm_compute. repeat split. Qed.

Lemma returnsZero_Ok (c : Z) : returnsZero (Ok c) = (c =? 0).
Proof. now destruct c. Qed.

#[global] Instance groups_consistent {A} (p : A -> bool) :
  Consistent (fun a b => if p a && negb (p b) then -1
                         else if negb (p a) && p b then 1 else 0).
Proof.
  split.
  - intros a b. now destruct (p a), (p b).
  - intros a b c. destruct (p a), (p b), (p c); simpl; lia.
Qed.

Lemma sorted_head_exact localeCompare query locality
    (x h : hospital) (rest : list hospital) :
  StronglySorted
    (fun a b => relevance localeCompare query locality a b <= 0) (x :: rest) ->
  In h (x :: rest) -> nameIs query h = true -> nameIs query x = true.
Proof.
  intros Hsorted Hin Hh. destruct (nameIs query x) eqn:Hx; [done|].
  destruct Hin as [->|Hin]; [congruence|].
  apply StronglySorted_inv in Hsorted. destruct Hsorted as [_ Hall].
  rewrite List.Forall_forall in Hall. specialize (Hall h Hin).
  unfold relevance in Hall. rewrite Hx, Hh in Hall. simpl in Hall. lia.
Qed.

(** C4: a search with a query answers with its candidate set, ordered by
    the three-level comparator: exact matches of the name before the
    others, then, when a locality was given, records in that locality
    before the others, then ascending in the collation of the names.  If
    exactly one candidate's name equals the query case-insensitively, that
    record is the first of the answer. *)
Theorem search_orders_by_relevance (localeCompare : string -> string -> Z)
    (σ : server) (hs : list hospital) (Q : string) (D L : option string) :
  Consistent localeCompare ->
  heap σ !! hospitals σ = Some (CArray hs) ->
  Q <> "" ->
  exists found,
    (search localeCompare (Some Q) D L σ).1 =
      Ok (respond 200 (Hospitals found)) /\
    Permutation found (candidates Q D L hs) /\
    StronglySorted (precedes localeCompare Q L) found /\
    forall h, List.filter (nameIs Q) (candidates Q D L hs) = [h] ->
              head found = Some h.
Proof.
  intros Hlc Hhs HQ.
  rewrite (search_answer localeCompare σ hs [] []) by done.
  cbn [answer]. rewrite provided_Some by done.
  destruct (sortBy_sorted (relevance localeCompare Q L)
              (relevanceCompare localeCompare Q L)
              (fun h => is_Some (Hospital.name h))
              (relevanceCompare_named localeCompare Q L)
              (candidates Q D L hs) (candidates_named Q D L hs))
    as (found & Hsort & Hperm & Hsorted & _).
  rewrite Hsort. exists found. split; [done|]. split; [done|]. split.
  - eapply StronglySorted_iff; [|exact Hsorted].
    intros a b. apply relevance_precedes.
  - intros h Hone.
    assert (In h (List.filter (nameIs Q) (candidates Q D L hs))) as Hh
      by (rewrite Hone; now left).
    apply filter_In in Hh. destruct Hh as [Hin Hexact].
    apply (Permutation_in _ (Permutation_sym Hperm)) in Hin.
    destruct found as [|x rest]; [destruct Hin|]. simpl. f_equal.
    pose proof (sorted_head_exact _ _ _ x h rest Hsorted Hin Hexact) as Hx.
    assert (In x (List.filter (nameIs Q) (candidates Q D L hs))) as Hxin.
    { apply filter_In. split; [|done].
      apply (Permutation_in _ Hperm). now left. }
    rewrite Hone in Hxin. destruct Hxin as [->|[]]. reflexivity.
Qed.

Lemma search_orders_by_relevance_witness :
  exists found,
    (search defaultCompare (Some "apollo hospital") None None sampleServer).1 =
      Ok (respond 200 (Hospitals found)) /\
    head found = Some (sampleHospital "4" "Apollo Hospital" "Pune" "Kothrud").
Proof.
  destruct (search_orders_by_relevance defaultCompare sampleServer sampleStore
              "apollo hospital" None None) as (found & Hfound & _ & _ & Hhead).
  - apply defaultCompare_consistent.
  - vm_compute. reflexivity.
  - discriminate.
  - exists found. split; [exact Hfound|]. apply Hhead.
    vm_compute. reflexivity.
Defined.

Example search_ex :
  (search defaultCompare (Some "apollo hospital") None None sampleServer).1 =
  Ok (respond 200 (Hospitals
    [ sampleHospital "4" "Apollo Hospital" "Pune" "Kothrud";
      sampleHospital "3" "Apollo Hospital Annexe" "PUNE" "Haveli";
      sampleHospital "2" "New Apollo Hospital" "Pune" "Kothrud" ])).
Proof. vm_compute. reflexivity. Qed.

(** C9: every operation of the Query Engine leaves the Directory Store as
    it was: the three variables, the array of records and the two sets are
    unchanged, as is every cell allocated before the call; the arrays that
    the district query and the search sort in place are cells of their
    own. *)
Theorem queries_leave_store_unchanged (localeCompare : string -> string -> Z)
    (r : request) (σ : server) :
  allocated σ ->
  directoryStore (handle localeCompare r σ).2 = directoryStore σ /\
  preserves σ (handle localeCompare r σ).2.
Proof.
  intros Ha.
  destruct (keeps_handle localeCompare r σ σ (preserves_refl σ)) as [Hp _].
  split; [|done]. now apply preserves_store.
Qed.

Lemma queries_leave_store_unchanged_witness :
  directoryStore
    (handle defaultCompare (Search (Some "apollo hospital") None (Some "kothrud"))
            sampleServer).2 =
  directoryStore sampleServer.
Proof.
  apply (queries_leave_store_unchanged defaultCompare
           (Search (Some "apollo hospital") None (Some "kothrud")) sampleServer).
  vm_compute. repeat split.
Defined.

Lemma filter_none {A} (p : A -> bool) (l : list A) :
  (forall y, p y = false) -> List.filter p l = [].
Proof. intros H. induction l as [|y l IH]; [done|]. simpl. now rewrite H. Qed.

(** The records of [l] on which the search comparator returns 0 against
    [z] are those that tie with [z] in the order of relevance. *)
Lemma relevance_ties localeCompare query locality (z : hospital)
    (l : list hospital) :
  List.Forall (fun h => is_Some (Hospital.name h)) l ->
  List.filter
    (fun y => returnsZero (relevanceCompare localeCompare query locality z y)) l =
  match Hospital.name z with
  | Some _ =>
      List.filter (fun y => relevance localeCompare query locality z y =? 0) l
  | None => []
  end.
Proof.
  intros Hl. destruct (Hospital.name z) as [n|] eqn:Hz.
  - apply List.filter_ext_in. intros y Hy.
    rewrite List.Forall_forall in Hl.
    rewrite relevanceCompare_named by (rewrite ?Hz; eauto).
    apply returnsZero_Ok.
  - apply filter_none. intros y. unfold relevanceCompare. now rewrite Hz.
Qed.

(** C10: on a given Directory Store an operation always gives the same
    response: a second invocation answers as the first did, as does an
    invocation in any other state of the server that holds the same
    records and sets.  Where the comparator of the district query or of
    the search returns 0, the records concerned stand in the answer in the
    order they have in the store. *)
Theorem queries_are_deterministic (localeCompare : string -> string -> Z)
    (σ : server) (hs : list hospital) (ds ss : list string) :
  Consistent localeCompare ->
  heap σ !! hospitals σ = Some (CArray hs) ->
  heap σ !! districts σ = Some (CSet ds) ->
  heap σ !! states σ = Some (CSet ss) ->
  allocated σ ->
  (forall r,
     (handle localeCompare r (handle localeCompare r σ).2).1 =
     (handle localeCompare r σ).1) /\
  (forall r σ',
     directoryStore σ' = directoryStore σ ->
     (handle localeCompare r σ').1 = (handle localeCompare r σ).1) /\
  (forall D L, D <> "" -> L <> "" ->
     exists found,
       (byDistrict D (Some L) σ).1 = Ok (respond 200 (Hospitals found)) /\
       forall z,
         List.filter (fun y => returnsZero (localityCompare L z y)) found =
         List.filter (fun y => returnsZero (localityCompare L z y))
           (List.filter (fun h => fieldEquals (Hospital.district h) D) hs)) /\
  (forall Q D L, Q <> "" ->
     exists found,
       (search localeCompare (Some Q) D L σ).1 =
         Ok (respond 200 (Hospitals found)) /\
       forall z,
         List.filter
           (fun y => returnsZero (relevanceCompare localeCompare Q L z y)) found =
         List.filter
           (fun y => returnsZero (relevanceCompare localeCompare Q L z y))
           (candidates Q D L hs)).
Proof.
  intros Hlc Hhs Hds Hss Ha.
  assert (forall r σ', directoryStore σ' = directoryStore σ ->
            (handle localeCompare r σ').1 = (handle localeCompare r σ).1) as Hsame.
  { intros r σ' [= Eh Ed Es].
    rewrite (handle_answer localeCompare σ hs ds ss) by done.
    rewrite (handle_answer localeCompare σ' hs ds ss) by congruence.
    reflexivity. }
  split; [|split; [exact Hsame|split]].
  - intros r. apply Hsame.
    destruct (keeps_handle localeCompare r σ σ (preserves_refl σ)) as [Hp _].
    now apply preserves_store.
  - intros D L HD HL.
    rewrite (byDistrict_answer localeCompare σ hs ds ss) by done.
    cbn [answer]. rewrite !provided_Some by done. eexists. split; [reflexivity|].
    intros z.
    rewrite (List.filter_ext _ _
      (fun h => lowerEquals_fieldEquals (Hospital.district h) D HD)).
    set (l := List.filter (fun h => fieldEquals (Hospital.district h) D) hs).
    destruct (sortBy_sorted _ (localityCompare L) (fun _ => True)
                (fun x y _ _ => localityCompare_groups L x y) l)
      as (r & Hr & _ & _ & Hstable).
    { apply List.Forall_forall. done. }
    rewrite (sortBy_partition (inLocality L) _ (localityCompare_groups L)) in Hr.
    injection Hr as <-.
    rewrite !(List.filter_ext _ _
      (fun y => eq_trans (f_equal returnsZero (localityCompare_groups L z y))
                         (returnsZero_Ok _))).
    apply Hstable.
  - intros Q D L HQ.
    rewrite (search_answer localeCompare σ hs ds ss) by done.
    cbn [answer]. rewrite provided_Some by done.
    destruct (sortBy_sorted (relevance localeCompare Q L)
                (relevanceCompare localeCompare Q L)
                (fun h => is_Some (Hospital.name h))
                (relevanceCompare_named localeCompare Q L)
                (candidates Q D L hs) (candidates_named Q D L hs))
      as (found & Hsort & Hperm & _ & Hstable).
    rewrite Hsort. exists found. split; [done|]. intros z.
    rewrite !relevance_ties;
      [ | apply candidates_named
        | eapply Permutation_Forall;
          [symmetry; exact Hperm | apply candidates_named] ].
    destruct (Hospital.name z); [apply Hstable | reflexivity].
Qed.

Lemma queries_are_deterministic_witness :
  (handle defaultCompare (ByDistrict "pune" (Some "haveli"))
     (handle defaultCompare (ByDistrict "pune" (Some "haveli")) sampleServer).2).1 =
  (handle defaultCompare (ByDistrict "pune" (Some "haveli")) sampleServer).1.
Proof.
  destruct (queries_are_deterministic defaultCompare sampleServer sampleStore
              ["Pune"; "PUNE"] ["Maharashtra"]) as [Htwice _].
  - apply defaultCompare_consistent.
  - vm_compute. reflexivity.
  - vm_compute. reflexivity.
  - vm_compute. reflexivity.
  - vm_compute. repeat split.
  - apply Htwice.
Defined.

(** ** The store that a load builds *)

Lemma arrayPush_ok l hs h σ :
  heap σ !! l = Some (CArray hs) ->
  arrayPush l h σ = (Ok (), update l (CArray (hs ++ [h])) σ).
Proof.
  intros H. unfold arrayPush.
  now rewrite (bind_ok _ _ _ _ _ (readArray_ok _ _ _ H)).
Qed.

Lemma setAdd_ok l ss x σ :
  heap σ !! l = Some (CSet ss) ->
  setAdd l x σ = (Ok (), update l (CSet (addToSet x ss)) σ).
Proof.
  intros H. unfold setAdd.
  now rewrite (bind_ok _ _ _ _ _ (readSet_ok _ _ _ H)).
Qed.

Section Loading.
Variables r d s n : loc.
Hypothesis r_d : r <> d.
Hypothesis r_s : r <> s.
Hypothesis d_s : d <> s.

Lemma loading_push σ store h :
  loading r d s n σ store ->
  exists σ',
    arrayPush r h σ = (Ok (), σ') /\
    loading r d s n σ' ((store.1.1 ++ [h])%list, store.1.2, store.2).
Proof.
  intros [Hd Hs Hn Hr Hds Hss]. eexists. split; [apply arrayPush_ok; exact Hr|].
  split; simpl; try done.
  - apply lookup_insert_eq.
  - now rewrite lookup_insert_ne.
  - now rewrite lookup_insert_ne.
Qed.

Lemma loading_collect_district σ store field :
  loading r d s n σ store ->
  exists σ',
    collect getDistricts field σ = (Ok (), σ') /\
    loading r d s n σ' (store.1.1, noted field store.1.2, store.2).
Proof.
  intros H. pose proof H as [Hd Hs Hn Hr Hds Hss]. unfold collect, noted.
  destruct (truthyS field && truthyS (trim <$> field)).
  - eexists. split.
    + erewrite bind_ok by apply getDistricts_run.
      apply setAdd_ok. rewrite Hd. exact Hds.
    + rewrite Hd. split; simpl; try done.
      * now rewrite lookup_insert_ne.
      * apply lookup_insert_eq.
      * now rewrite lookup_insert_ne.
  - exists σ. split; [reflexivity|]. now destruct store as [[rs ds] ss].
Qed.

Lemma loading_collect_state σ store field :
  loading r d s n σ store ->
  exists σ',
    collect getStates field σ = (Ok (), σ') /\
    loading r d s n σ' (store.1.1, store.1.2, noted field store.2).
Proof.
  intros H. pose proof H as [Hd Hs Hn Hr Hds Hss]. unfold collect, noted.
  destruct (truthyS field && truthyS (trim <$> field)).
  - eexists. split.
    + erewrite bind_ok by apply getStates_run.
      apply setAdd_ok. rewrite Hs. exact Hss.
    + rewrite Hs. split; simpl; try done.
      * now rewrite lookup_insert_ne.
      * rewrite lookup_insert_ne by done. exact Hds.
      * apply lookup_insert_eq.
  - exists σ. split; [reflexivity|]. now destruct store as [[rs ds] ss].
Qed.

(** One row takes the state of a load to the state for [ingest]. *)
Lemma loading_onData σ store data :
  loading r d s n σ store ->
  exists σ',
    onData r data σ = (Ok (), σ') /\ loading r d s n σ' (ingest store data).
Proof.
  intros H. rewrite onData_outcome. unfold ingest, accept.
  destruct (sanitizeData data) as [raw|e]; [|now exists σ].
  destruct (qualifies (makeHospital raw)) as [[]|e]; try now exists σ.
  destruct (loading_push σ store (makeHospital raw) H) as (σ1 & E1 & H1).
  destruct (loading_collect_district σ1 _
              (Hospital.district (makeHospital raw)) H1) as (σ2 & E2 & H2).
  destruct (loading_collect_state σ2 _
              (Hospital.state (makeHospital raw)) H2) as (σ3 & E3 & H3).
  exists σ3. split; [|exact H3]. unfold try_catch.
  rewrite (bind_ok _ _ _ _ _ E1), (bind_ok _ _ _ _ _ E2), E3. reflexivity.
Qed.

Lemma loading_forEach rows σ store :
  loading r d s n σ store ->
  exists σ',
    forEach (onData r) rows σ = (Ok (), σ') /\
    loading r d s n σ' (ingestAll rows store).
Proof.
  revert σ store. induction rows as [|data rows IH]; intros σ store H.
  - now exists σ.
  - destruct (loading_onData σ store data H) as (σ1 & E1 & H1).
    destruct (IH σ1 _ H1) as (σ2 & E2 & H2).
    exists σ2. split; [|exact H2]. simpl. now rewrite (bind_ok _ _ _ _ _ E1).
Qed.

End Loading.

(** A load of [rows] into a server with district set [ds0] and state set
    [ss0] ends with the store that [ingestAll] describes. *)
Lemma loadHospitalData_store (rows : list RawRow) (σ0 : server)
    (ds0 ss0 : list string) :
  heap σ0 !! districts σ0 = Some (CSet ds0) ->
  heap σ0 !! states σ0 = Some (CSet ss0) ->
  districts σ0 <> states σ0 ->
  allocated σ0 ->
  let σ := (loadHospitalData (Some rows) σ0).2 in
  let store := ingestAll rows ([], ds0, ss0) in
  holds σ store.1.1 store.1.2 store.2 /\ allocated σ.
Proof.
  intros Hds Hss Hne (Hh & Hd & Hs). cbv zeta.
  assert (loading (next σ0) (districts σ0) (states σ0) (Pos.succ (next σ0))
            (extend (CArray []) σ0) ([], ds0, ss0)) as Hload.
  { split; simpl; try done.
    - apply lookup_insert_eq.
    - rewrite lookup_insert_ne; [done|lia].
    - rewrite lookup_insert_ne; [done|lia]. }
  destruct (loading_forEach (next σ0) (districts σ0) (states σ0) _
              ltac:(lia) ltac:(lia) Hne rows _ _ Hload)
    as (σ1 & E1 & [Hd1 Hs1 Hn1 Hr1 Hds1 Hss1]).
  unfold loadHospitalData, try_catch.
  erewrite bind_ok by reflexivity.
  rewrite (bind_ok _ _ _ _ _ E1). simpl. split.
  - unfold holds; simpl. now rewrite Hd1, Hs1.
  - unfold allocated; simpl. rewrite Hd1, Hs1, Hn1. lia.
Qed.

(** The records of the store are the accepted rows, in row order. *)
Lemma ingestAll_records (rows : list RawRow)
    (store : list hospital * list string * list string) :
  (ingestAll rows store).1.1 = (store.1.1 ++ omap accept rows)%list.
Proof.
  revert store. induction rows as [|data rows IH]; intros store; simpl.
  - now rewrite app_nil_r.
  - unfold ingestAll in *. simpl. rewrite IH. unfold ingest.
    destruct (accept data) as [h|]; simpl; [|done].
    now rewrite <- app_assoc.
Qed.

(** Every load at startup gives a well-formed store. *)
Lemma startup_store (rows : list RawRow) :
  exists ds ss,
    holds (loadHospitalData (Some rows) initial).2 (omap accept rows) ds ss /\
    allocated (loadHospitalData (Some rows) initial).2.
Proof.
  destruct (loadHospitalData_store rows initial [] []) as [H Ha];
    [reflexivity | reflexivity | discriminate | repeat split |].
  rewrite ingestAll_records in H. eauto.
Qed.

(** ** More on strings *)

Lemma trimStart_fixed (s : string) :
  match s with
  | EmptyString => True
  | String c _ => isWhiteSpace c = false
  end -> trimStart s = s.
Proof. destruct s as [|c s]; simpl; [done|]. now intros ->. Qed.

Lemma trimStart_head (s : string) :
  match trimStart s with
  | EmptyString => True
  | String c _ => isWhiteSpace c = false
  end.
Proof.
  induction s as [|c s IH]; simpl; [done|].
  destruct (isWhiteSpace c) eqn:Hc; [exact IH | exact Hc].
Qed.

Lemma trimEnd_head (c : ascii) (s : string) :
  isWhiteSpace c = false -> exists r, trimEnd (String c s) = String c r.
Proof.
  intros Hc. simpl. destruct (trimEnd s); rewrite ?Hc; eauto.
Qed.

Lemma trimEnd_idempotent (s : string) : trimEnd (trimEnd s) = trimEnd s.
Proof.
  induction s as [|c s IH]; simpl; [done|].
  destruct (trimEnd s) as [|c' r] eqn:Hs.
  - destruct (isWhiteSpace c) eqn:Hc; simpl; [done|]. now rewrite Hc.
  - simpl in *. now rewrite IH.
Qed.

(** Trimming a trimmed string changes nothing. *)
Lemma trim_idempotent (s : string) : trim (trim s) = trim s.
Proof.
  unfold trim. pose proof (trimStart_head s) as Hhead.
  destruct (trimStart s) as [|c u] eqn:Hu; [reflexivity|].
  destruct (trimEnd_head c u Hhead) as [r Hr]. rewrite Hr.
  rewrite trimStart_fixed by exact Hhead. rewrite <- Hr.
  apply trimEnd_idempotent.
Qed.

Lemma lowerChar_idempotent (c : ascii) : lowerChar (lowerChar c) = lowerChar c.
Proof. destruct c as [[] [] [] [] [] [] [] []]; reflexivity. Qed.

Lemma toLowerCase_idempotent (s : string) :
  toLowerCase (toLowerCase s) = toLowerCase s.
Proof.
  induction s as [|c s IH]; simpl; [done|].
  now rewrite lowerChar_idempotent, IH.
Qed.

Lemma prefix_app_l (a b s : string) :
  String.prefix (a ++ b) s = true -> String.prefix a s = true.
Proof.
  revert s. induction a as [|c a IH]; intros s; simpl.
  - now destruct s.
  - destruct s as [|c' s]; simpl; [done|].
    destruct (ascii_dec c c'); [apply IH | done].
Qed.

(** A string that contains [a ++ b] contains [a]. *)
Lemma includes_app_l (s a b : string) :
  includes s (a ++ b) = true -> includes s a = true.
Proof.
  induction s as [|c s IH]; cbn [includes].
  - rewrite !orb_false_r. apply prefix_app_l.
  - intros H. apply orb_true_iff in H. apply orb_true_iff.
    destruct H as [H|H]; [left; now apply prefix_app_l in H | right; auto].
Qed.

Lemma prefix_toLowerCase (a s : string) :
  String.prefix a s = true ->
  String.prefix (toLowerCase a) (toLowerCase s) = true.
Proof.
  revert s. induction a as [|c a IH]; intros s; simpl.
  - now destruct s.
  - destruct s as [|c' s]; [done|]. simpl.
    destruct (ascii_dec c c') as [->|]; [|done]. intros H.
    destruct (ascii_dec (lowerChar c') (lowerChar c')); [auto | done].
Qed.

(** Containment survives lower-casing both strings. *)
Lemma includes_toLowerCase (s a : string) :
  includes s a = true -> includes (toLowerCase s) (toLowerCase a) = true.
Proof.
  induction s as [|c s IH]; cbn [includes toLowerCase].
  - rewrite !orb_false_r. apply (prefix_toLowerCase a "").
  - intros H. apply orb_true_iff in H. apply orb_true_iff.
    destruct H as [H|H]; [left | right; auto].
    now apply (prefix_toLowerCase a (String c s)).
Qed.

(** ** More on the Normalizer *)

Lemma sanitizeValue_trimmed (v : value) (s : string) :
  sanitizeValue v = Ok s -> trim s = s.
Proof.
  unfold sanitizeValue.
  destruct (negb (truthy v) || strictEquals v "0"); [now intros [= <-]|].
  destruct v; simpl; try discriminate. intros [= <-]. apply trim_idempotent.
Qed.

Lemma sanitizeValue_throws (v : value) :
  (exists e, sanitizeValue v = Throw e) <->
  truthy v = true /\ forall s, v <> VString s.
Proof.
  unfold sanitizeValue. split.
  - intros [e He]. destruct (truthy v) eqn:Ht; simpl in He; [|discriminate].
    split; [done|]. intros s ->. simpl in He.
    destruct (String.eqb s "0"); discriminate.
  - intros [Ht Hs]. rewrite Ht. simpl.
    destruct v; simpl in *; try (eexists; reflexivity).
    now destruct (Hs s).
Qed.

Lemma sanitizeData_keys_values (data : RawRow) (r : NormalizedRow) :
  sanitizeData data = Ok r ->
  (forall key, is_Some (r !! key) <->
               key <> "__proto__" /\ is_Some (data !! key)) /\
  (forall key s, r !! key = Some s -> trim s = s).
Proof.
  intros Hr. pose proof (sanitizeData_spec data) as H. rewrite Hr in H.
  split; intros key; specialize (H key).
  - destruct (data !! key) as [v|].
    + destruct H as (s & _ & ->). unfold stored.
      destruct (String.eqb_spec key "__proto__") as [->|Hne].
      * split; [intros [? ?]; discriminate|]. now intros [? _].
      * split; eauto.
    + rewrite H. split; [intros [? ?]; discriminate|].
      intros [_ [? ?]]. discriminate.
  - intros s Hs. destruct (data !! key) as [v|].
    + destruct H as (s' & Hv & Hk). rewrite Hk in Hs.
      apply stored_Some in Hs. destruct Hs as [_ <-].
      now apply sanitizeValue_trimmed in Hv.
    + congruence.
Qed.

(** X1: the keys of a row that the Normalizer returns are the keys of the
    raw row other than "__proto__", which the assignment of line 34 does
    not store, and each of its values is free of leading and trailing white
    space. *)
Theorem sanitizeData_trimmed (data : RawRow) (r : NormalizedRow) :
  sanitizeData data = Ok r ->
  (forall key, is_Some (r !! key) <->
               key <> "__proto__" /\ is_Some (data !! key)) /\
  (forall key s, r !! key = Some s -> trim s = s).
Proof. apply sanitizeData_keys_values. Qed.

Lemma sanitizeData_trimmed_witness :
  is_Some ((<["b" := "y"]> ∅ : NormalizedRow) !! "b") /\
  ~ is_Some ((<["b" := "y"]> ∅ : NormalizedRow) !! "__proto__") /\
  is_Some (protoRow !! "__proto__") /\
  trim "y" = "y".
Proof.
  destruct (sanitizeData_trimmed protoRow (<["b" := "y"]> ∅)) as [Hkeys Htrim].
  - vm_compute. reflexivity.
  - split; [|split; [|split]].
    + apply Hkeys. split; [discriminate|]. vm_compute. eauto.
    + intros H. apply Hkeys in H. now destruct H.
    + vm_compute. eauto.
    + apply (Htrim "b"). vm_compute. reflexivity.
Defined.

(** X2: the Normalizer throws exactly on the rows that hold a truthy value
    that is not a string (a value without a [trim] method); on every other
    row it returns a normalized row. *)
Theorem sanitizeData_throws_iff (data : RawRow) :
  (exists e, sanitizeData data = Throw e) <->
  exists key v, data !! key = Some v /\ truthy v = true /\
                forall s, v <> VString s.
Proof.
  pose proof (sanitizeData_spec data) as H. split.
  - intros [e He]. rewrite He in H. destruct H as (key & v & Hk & Hv).
    exists key, v. split; [done|]. apply sanitizeValue_throws. eauto.
  - intros (key & v & Hk & Hv). apply sanitizeValue_throws in Hv.
    destruct Hv as [e Hv]. destruct (sanitizeData data) as [r|e']; [|eauto].
    specialize (H key). rewrite Hk in H. destruct H as (s & Hs & _).
    congruence.
Qed.

Example sanitizeData_number : sanitizeData numberRow = Throw TypeError.
Proof. vm_compute. reflexivity. Qed.

(** ** More on the classifier *)

Lemma lacks_true (field : option string) (sub : string) :
  lacks field sub = Ok true <-> is_Some field /\ optIncludes field sub = false.
Proof.
  unfold lacks, lowerIncludes, optIncludes. destruct field as [s|]; simpl.
  - destruct (includes (toLowerCase s) sub); split.
    + discriminate.
    + intros [_ ?]. discriminate.
    + eauto.
    + reflexivity.
  - split; [discriminate|]. intros [[? ?] _]. discriminate.
Qed.

Lemma optLacks_true (field : option string) (sub : string) :
  optLacks field sub = Ok true <-> optIncludes field sub = false.
Proof.
  unfold optLacks. destruct (optIncludes field sub); simpl; split; congruence.
Qed.

Lemma optIncludes_app_l (field : option string) (a b : string) :
  optIncludes field a = false -> optIncludes field (a ++ b) = false.
Proof.
  unfold optIncludes. destruct field as [s|]; [|done]. intros Ha.
  destruct (includes (toLowerCase s) (a ++ b)) eqn:Hab; [|done].
  apply includes_app_l in Hab. congruence.
Qed.

Lemma Ok_true (b : bool) : Ok b = Ok true <-> b = true.
Proof. split; congruence. Qed.

Lemma lowerIncludes_true (field : option string) (sub : string) :
  lowerIncludes field sub = Ok true <-> optIncludes field sub = true.
Proof.
  unfold lowerIncludes, optIncludes. destruct field; split; congruence.
Qed.

Lemma qualifies_conditions (h : hospital) :
  qualifies h = Ok true <->
  truthyS (Hospital.name h) = true /\
  optIncludes (Hospital.medicine h) "allopathy" = true /\
  is_Some (Hospital.category h) /\
  optIncludes (Hospital.category h) "dispensary" = false /\
  optIncludes (Hospital.category h) "nursing" = false /\
  List.Forall (fun w => optIncludes (Hospital.name h) w = false) nameStopWords /\
  optIncludes (Hospital.specialties h) "pediatric" = false /\
  optIncludes (Hospital.specialties h) "children" = false /\
  optIncludes (Hospital.careType h) "nursing" = false /\
  (exists b n, Hospital.totalBeds h = Some b /\ parseInt b = Some n /\ 10 < n) /\
  (exists d n, Hospital.doctors h = Some d /\ parseInt d = Some n /\ 2 < n).
Proof.
  rewrite qualifies_true, !exceeds_true. unfold textChecks, nameStopWords.
  rewrite !and_then_true, !lacks_true, !optLacks_true, !Ok_true,
    lowerIncludes_true, !List.Forall_cons_iff.
  split.
  - intros (Ht & (b & n & Hb & _ & Hpb & Hnb) & (d & m & Hd & _ & Hpd & Hmd)).
    repeat match goal with H : _ /\ _ |- _ => destruct H end.
    repeat split; eauto using List.Forall_nil.
  - intros (Hn & Hm & Hc & Hcd & Hcn & Hw & Hsp & Hsc & Hct &
            (b & n & Hb & Hpb & Hnb) & (d & m & Hd & Hpd & Hmd)).
    repeat match goal with H : _ /\ _ |- _ => destruct H end.
    assert (is_Some (Hospital.name h)) as Hname
      by (destruct (Hospital.name h); [eauto | discriminate]).
    assert (truthyS (Hospital.medicine h) = true) as Hmed.
    { destruct (Hospital.medicine h) as [[|c s]|]; [discriminate|done|discriminate]. }
    repeat split; try assumption.
    + now apply (optIncludes_app_l _ "nursing" " home").
    + now apply (optIncludes_app_l _ "child" "ren").
    + now apply (optIncludes_app_l _ "nursing" " home").
    + now apply (optIncludes_app_l _ "nursing" " home").
    + now apply (optIncludes_app_l _ "nursing" "home").
    + now apply (optIncludes_app_l _ "nursing" "-home").
    + now apply (optIncludes_app_l _ "nursing" "_home").
    + exists b, n. repeat split; try assumption. intros ->. discriminate.
    + exists d, m. repeat split; try assumption. intros ->. discriminate.
Qed.

(** X3: a record is accepted exactly when its name is non-empty, its
    medicine field contains "allopathy", its category is present and
    contains neither "dispensary" nor "nursing", its name contains none of
    the eight stop words, its specialties contain neither "pediatric" nor
    "children", its care type does not contain "nursing", and its bed and
    doctor counts parse to more than 10 and more than 2.  The other
    conjuncts of the condition ("children", the spellings of "nursing
    home") are implied by these. *)
Theorem qualifies_iff (h : hospital) :
  qualifies h = Ok true <->
  truthyS (Hospital.name h) = true /\
  optIncludes (Hospital.medicine h) "allopathy" = true /\
  is_Some (Hospital.category h) /\
  optIncludes (Hospital.category h) "dispensary" = false /\
  optIncludes (Hospital.category h) "nursing" = false /\
  List.Forall (fun w => optIncludes (Hospital.name h) w = false) nameStopWords /\
  optIncludes (Hospital.specialties h) "pediatric" = false /\
  optIncludes (Hospital.specialties h) "children" = false /\
  optIncludes (Hospital.careType h) "nursing" = false /\
  (exists b n, Hospital.totalBeds h = Some b /\ parseInt b = Some n /\ 10 < n) /\
  (exists d n, Hospital.doctors h = Some d /\ parseInt d = Some n /\ 2 < n).
Proof. apply qualifies_conditions. Qed.

(** X4: a record whose name contains, in any letter case, a word that
    begins with one of the stop words ("Children", "NURSING HOME",
    "Clinic", ...) is never accepted, whatever its other fields are. *)
Theorem stop_word_in_name_rejects (h : hospital) (n w rest word : string) :
  Hospital.name h = Some n ->
  In w nameStopWords ->
  toLowerCase word = (w ++ rest) ->
  includes n word = true ->
  qualifies h <> Ok true.
Proof.
  intros Hn Hw Hword Hin Hq. apply qualifies_conditions in Hq.
  destruct Hq as (_ & _ & _ & _ & _ & Hwords & _).
  rewrite List.Forall_forall in Hwords. specialize (Hwords w Hw).
  unfold optIncludes in Hwords. rewrite Hn in Hwords.
  apply includes_toLowerCase in Hin. rewrite Hword in Hin.
  apply includes_app_l in Hin. congruence.
Qed.

Lemma stop_word_in_name_rejects_witness :
  qualifies (renamed "City General Hospital") = Ok true /\
  qualifies (renamed "City CHILDREN'S Hospital") <> Ok true.
Proof.
  split; [vm_compute; reflexivity|].
  apply (stop_word_in_name_rejects _ "City CHILDREN'S Hospital"
           "child" "ren" "CHILDREN").
  - vm_compute. reflexivity.
  - left. reflexivity.
  - vm_compute. reflexivity.
  - vm_compute. reflexivity.
Defined.

(** ** More on the load *)

#[local] Set Warnings "-clear-no-such-hyp".

Lemma elem_of_addToSet (x s : string) (ss : list string) :
  x ∈ addToSet s ss <-> x = s \/ x ∈ ss.
Proof.
  unfold addToSet. case_bool_decide as Hs.
  - split; [auto|]. now intros [->|].
  - rewrite elem_of_app, list_elem_of_singleton. tauto.
Qed.

Lemma NoDup_addToSet (s : string) (ss : list string) :
  NoDup ss -> NoDup (addToSet s ss).
Proof.
  intros Hss. unfold addToSet. case_bool_decide as Hs; [done|].
  apply NoDup_app. split; [done|]. split; [|apply NoDup_singleton].
  intros x Hx ->%list_elem_of_singleton. contradiction.
Qed.

Lemma noted_condition (field : option string) :
  truthyS field && truthyS (trim <$> field) = true <->
  exists f, field = Some f /\ trim f <> "".
Proof.
  destruct field as [f|]; simpl.
  - rewrite andb_true_iff, !negb_true_iff, !String.eqb_neq. split.
    + intros [_ H]. eauto.
    + intros (f' & [= <-] & H). split; [|done]. now intros ->.
  - split; [discriminate|]. now intros (f & ? & _).
Qed.

Lemma elem_of_noted (field : option string) (set : list string) (x : string) :
  x ∈ noted field set <-> x ∈ set \/ contributes field x.
Proof.
  unfold noted, contributes.
  destruct (truthyS field && truthyS (trim <$> field)) eqn:Hc.
  - apply noted_condition in Hc. destruct Hc as (f & -> & Hf). simpl.
    rewrite elem_of_addToSet. split.
    + intros [->|?]; [right; eauto | now left].
    + intros [?|(_ & f' & [= <-] & <-)]; auto.
  - split; [auto|]. intros [?|(Hx & f & -> & <-)]; [done|].
    assert (truthyS (Some f) && truthyS (trim <$> Some f) = true) as Ht
      by (apply noted_condition; eauto).
    congruence.
Qed.

Lemma NoDup_noted (field : option string) (set : list string) :
  NoDup set -> NoDup (noted field set).
Proof.
  intros H. unfold noted. destruct (_ && _); [now apply NoDup_addToSet | done].
Qed.

Lemma accept_Some (data : RawRow) (h : hospital) :
  accept data = Some h <->
  exists raw, sanitizeData data = Ok raw /\ h = makeHospital raw /\
              qualifies h = Ok true.
Proof.
  unfold accept. split.
  - destruct (sanitizeData data) as [raw|]; [|discriminate].
    destruct (qualifies (makeHospital raw)) as [[]|] eqn:Hq; try discriminate.
    intros [= <-]. eauto.
  - intros (raw & -> & -> & ->). reflexivity.
Qed.

(** The district and state of an accepted record carry no white space at
    their ends. *)
Lemma accept_trimmed (data : RawRow) (h : hospital) :
  accept data = Some h ->
  (forall f, Hospital.district h = Some f -> trim f = f) /\
  (forall f, Hospital.state h = Some f -> trim f = f).
Proof.
  intros (raw & Hraw & -> & _)%accept_Some.
  destruct (sanitizeData_keys_values data raw Hraw) as [_ Htrim].
  split; intros f Hf; exact (Htrim _ _ Hf).
Qed.

Lemma ingestAll_cons data rows store :
  ingestAll (data :: rows) store = ingestAll rows (ingest store data).
Proof. reflexivity. Qed.

(** Districts and states after a sequence of rows: what was there, and
    what the accepted records contribute. *)
Lemma ingestAll_sets (rows : list RawRow)
    (store : list hospital * list string * list string) :
  (forall x, x ∈ (ingestAll rows store).1.2 <->
     x ∈ store.1.2 \/
     exists h, h ∈ omap accept rows /\ contributes (Hospital.district h) x) /\
  (forall x, x ∈ (ingestAll rows store).2 <->
     x ∈ store.2 \/
     exists h, h ∈ omap accept rows /\ contributes (Hospital.state h) x) /\
  (NoDup store.1.2 -> NoDup (ingestAll rows store).1.2) /\
  (NoDup store.2 -> NoDup (ingestAll rows store).2).
Proof.
  revert store. induction rows as [|data rows IH]; intros store.
  - simpl. split; [|split; [|split]]; try done; intros x;
      setoid_rewrite elem_of_nil; naive_solver.
  - rewrite ingestAll_cons. destruct (IH (ingest store data)) as (Hd & Hs & Nd & Ns).
    unfold ingest in *. simpl. destruct (accept data) as [h|]; simpl in *.
    + split; [|split; [|split]].
      * intros x. rewrite Hd, elem_of_noted. setoid_rewrite elem_of_cons.
        naive_solver.
      * intros x. rewrite Hs, elem_of_noted. setoid_rewrite elem_of_cons.
        naive_solver.
      * intros H. now apply Nd, NoDup_noted.
      * intros H. now apply Ns, NoDup_noted.
    + done.
Qed.

Lemma sortBy_permutation {A} (cmp : A -> A -> result Z) (l r : list A) :
  sortBy cmp l = Ok r -> Permutation r l.
Proof.
  assert (forall x l r, insertBy cmp x l = Ok r -> Permutation r (x :: l)) as Hins.
  { clear. intros x l. induction l as [|y l IH]; intros r; simpl.
    - now intros [= <-].
    - destruct (cmp x y) as [c|]; simpl; [|discriminate].
      destruct (c <=? 0); [now intros [= <-]|].
      destruct (insertBy cmp x l) as [r'|]; simpl; [|discriminate].
      intros [= <-]. rewrite (IH r' eq_refl). apply perm_swap. }
  revert r. induction l as [|x l IH]; intros r; simpl.
  - now intros [= <-].
  - destruct (sortBy cmp l) as [r'|]; simpl; [|discriminate].
    intros H. apply Hins in H. rewrite H. constructor. now apply IH.
Qed.

(** Every record of a response is a record of the store. *)
Lemma served_in_store localeCompare (r : request) (hs : list hospital)
    (ds ss : list string) (h : hospital) :
  served (answer localeCompare r hs ds ss) h -> In h hs.
Proof.
  unfold served. destruct r; cbn [answer].
  - done.
  - destruct (provided (Some district)); [|done]. cbn [json].
    destruct (provided locality); unfold stablePartition;
      rewrite ?in_app_iff, ?filter_In; tauto.
  - destruct (provided (Some state)); [|done]. cbn [json].
    rewrite filter_In. tauto.
  - destruct (provided (Some state)); [|done]. now destruct (sortedStrings _).
  - destruct (provided query) as [q|]; [|done].
    destruct (sortBy _ _) as [sorted|] eqn:Hsort; [|done]. cbn [json].
    intros Hin. apply (Permutation_in _ (sortBy_permutation _ _ _ Hsort)) in Hin.
    unfold candidates in Hin.
    destruct (provided locality); [apply filter_In in Hin as [Hin _]|];
      (destruct (provided district); [apply filter_In in Hin as [Hin _]|]);
      now apply filter_In in Hin as [Hin _].
  - now destruct (sortedStrings ds).
  - now destruct (sortedStrings ss).
  - destruct (provided (Some id)) as [i|]; [|done].
    destruct (List.find (idIs i) hs) as [h'|] eqn:Hfind; [|done]. cbn [json].
    intros <-. now apply find_some in Hfind.
  - destruct (provided (Some locality)); [|done]. cbn [json].
    rewrite filter_In. tauto.
Qed.

(** X5: a load at startup leaves in the store exactly the records of the
    accepted rows, in the order of the rows, and [listAll] answers with
    them; each of them comes from a row whose normalization succeeded and
    that passed the classifier. *)
Theorem startup_records (rows : list RawRow) :
  let σ := (loadHospitalData (Some rows) initial).2 in
  heap σ !! hospitals σ = Some (CArray (omap accept rows)) /\
  (listAll σ).1 = Ok (respond 200 (Hospitals (omap accept rows))) /\
  forall h, h ∈ omap accept rows <->
    exists data raw, data ∈ rows /\ sanitizeData data = Ok raw /\
                     h = makeHospital raw /\ qualifies h = Ok true.
Proof.
  cbv zeta. destruct (startup_store rows) as (ds & ss & (Hh & _) & _).
  split; [exact Hh|]. split.
  - now rewrite (listAll_answer (fun _ _ => 0) _ _ [] [] Hh).
  - intros h. rewrite list_elem_of_omap. setoid_rewrite accept_Some.
    naive_solver.
Qed.

Lemma startup_sets_spec (rows : list RawRow) :
  let σ := (loadHospitalData (Some rows) initial).2 in
  exists ds ss,
    heap σ !! districts σ = Some (CSet ds) /\
    heap σ !! states σ = Some (CSet ss) /\
    NoDup ds /\ NoDup ss /\
    (forall x, x ∈ ds <->
       x <> "" /\ exists h, h ∈ omap accept rows /\ Hospital.district h = Some x) /\
    (forall x, x ∈ ss <->
       x <> "" /\ exists h, h ∈ omap accept rows /\ Hospital.state h = Some x).
Proof.
  cbv zeta.
  destruct (loadHospitalData_store rows initial [] []) as [(_ & Hd & Hs) _];
    [reflexivity | reflexivity | discriminate | repeat split |].
  destruct (ingestAll_sets rows ([], [], [])) as (Md & Ms & Nd & Ns).
  eexists _, _. split; [exact Hd|]. split; [exact Hs|].
  split; [apply Nd; constructor|]. split; [apply Ns; constructor|].
  assert (forall (field : hospital -> option string) h x,
            h ∈ omap accept rows ->
            (forall f, field h = Some f -> trim f = f) ->
            contributes (field h) x <-> x <> "" /\ field h = Some x) as Hc.
  { intros field h x Hh Htrim. unfold contributes. split.
    - intros (Hx & f & Hf & <-). split; [done|]. now rewrite (Htrim f Hf).
    - intros (Hx & Hf). split; [done|]. exists x. split; [done|]. now apply Htrim. }
  split; intros x; [rewrite Md | rewrite Ms]; simpl;
    setoid_rewrite elem_of_nil; split.
  - intros [[]|(h & Hh & Hx)]. pose proof Hh as Hh'.
    apply list_elem_of_omap in Hh' as (data & _ & Ha).
    apply (Hc Hospital.district) in Hx;
      [|done|apply (accept_trimmed data h Ha)]. naive_solver.
  - intros (Hx & h & Hh & Hf). right. exists h. split; [done|].
    pose proof Hh as Hh'. apply list_elem_of_omap in Hh' as (data & _ & Ha).
    apply (Hc Hospital.district); [done|apply (accept_trimmed data h Ha)|done].
  - intros [[]|(h & Hh & Hx)]. pose proof Hh as Hh'.
    apply list_elem_of_omap in Hh' as (data & _ & Ha).
    apply (Hc Hospital.state) in Hx;
      [|done|apply (accept_trimmed data h Ha)]. naive_solver.
  - intros (Hx & h & Hh & Hf). right. exists h. split; [done|].
    pose proof Hh as Hh'. apply list_elem_of_omap in Hh' as (data & _ & Ha).
    apply (Hc Hospital.state); [done|apply (accept_trimmed data h Ha)|done].
Qed.

(** X6: after a load at startup the district set has no duplicates and no
    empty string, and its members are exactly the non-empty districts of
    the records in the store; likewise the state set. *)
Theorem startup_sets (rows : list RawRow) :
  let σ := (loadHospitalData (Some rows) initial).2 in
  exists ds ss,
    heap σ !! districts σ = Some (CSet ds) /\
    heap σ !! states σ = Some (CSet ss) /\
    NoDup ds /\ NoDup ss /\
    (forall x, x ∈ ds <->
       x <> "" /\ exists h, h ∈ omap accept rows /\ Hospital.district h = Some x) /\
    (forall x, x ∈ ss <->
       x <> "" /\ exists h, h ∈ omap accept rows /\ Hospital.state h = Some x).
Proof. apply startup_sets_spec. Qed.

(** X7: whatever operation is invoked after a load at startup, every
    record in its response is a record of an accepted row: it passed the
    classifier, and no operation serves a record that is not in the
    store. *)
Theorem served_records_qualify (localeCompare : string -> string -> Z)
    (rows : list RawRow) (r : request) (resp : response) (h : hospital) :
  (handle localeCompare r (loadHospitalData (Some rows) initial).2).1 = Ok resp ->
  served resp h ->
  h ∈ omap accept rows /\ qualifies h = Ok true.
Proof.
  intros Hresp Hserved.
  destruct (startup_store rows) as (ds & ss & (Hh & Hd & Hs) & _).
  rewrite (handle_answer localeCompare _ _ ds ss Hh Hd Hs) in Hresp.
  injection Hresp as <-. apply served_in_store in Hserved.
  apply list_elem_of_In in Hserved. split; [done|].
  apply list_elem_of_omap in Hserved as (data & _ & Ha).
  now apply accept_Some in Ha as (raw & _ & _ & Hq).
Qed.

Lemma served_records_qualify_witness :
  sampleHospital "4" "Apollo Hospital" "Pune" "Kothrud" ∈ omap accept sampleRows /\
  qualifies (sampleHospital "4" "Apollo Hospital" "Pune" "Kothrud") = Ok true.
Proof.
  apply (served_records_qualify defaultCompare sampleRows (ById "4")
           (respond 200 (OneHospital
              (sampleHospital "4" "Apollo Hospital" "Pune" "Kothrud")))).
  - vm_compute. reflexivity.
  - reflexivity.
Defined.



(** ** More on sorting *)

Lemma insertBy_ext {A} (cmp cmp' : A -> A -> result Z) (x : A) (l : list A) :
  (forall y, In y l -> cmp x y = cmp' x y) ->
  insertBy cmp x l = insertBy cmp' x l.
Proof.
  induction l as [|y l IH]; intros H; simpl; [done|].
  rewrite (H y) by now left. rewrite IH; [done|]. intros z Hz. apply H. now right.
Qed.

(** Sorting depends on the comparator only through its values on the
    members of the array. *)
Lemma sortBy_ext {A} (cmp cmp' : A -> A -> result Z) (l : list A) :
  (forall x y, In x l -> In y l -> cmp x y = cmp' x y) ->
  sortBy cmp l = sortBy cmp' l.
Proof.
  induction l as [|x l IH]; intros H; simpl; [done|].
  rewrite IH by (intros y z Hy Hz; apply H; now right).
  destruct (sortBy cmp' l) as [r|] eqn:Hr; simpl; [|done].
  apply insertBy_ext. intros y Hy. apply H; [now left|]. right.
  exact (Permutation_in _ (sortBy_permutation _ _ _ Hr) Hy).
Qed.

(** A comparator that does not throw on the members of the array makes
    the sort return. *)
Lemma sortBy_total {A} (cmp : A -> A -> result Z) (dom : A -> Prop) (l : list A) :
  (forall x y, dom x -> dom y -> exists c, cmp x y = Ok c) ->
  List.Forall dom l -> exists r, sortBy cmp l = Ok r.
Proof.
  intros Hcmp.
  assert (forall x l, dom x -> List.Forall dom l -> exists r, insertBy cmp x l = Ok r)
    as Hins.
  { intros x l' Hx. induction 1 as [|y l' Hy Hl' IH]; simpl; [eauto|].
    destruct (Hcmp x y Hx Hy) as [c ->]. simpl.
    destruct (c <=? 0); [eauto|]. destruct IH as [r ->]. simpl. eauto. }
  induction 1 as [|x l' Hx Hl' IH]; simpl; [eauto|].
  destruct IH as [r Hr]. rewrite Hr. simpl. apply Hins; [done|].
  eapply Permutation_Forall; [|exact Hl'].
  symmetry. exact (sortBy_permutation _ _ _ Hr).
Qed.


Lemma search_sort_total localeCompare q district locality hs :
  exists r,
    sortBy (relevanceCompare localeCompare q locality)
           (candidates q district locality hs) = Ok r.
Proof.
  apply (sortBy_total _ (fun h => is_Some (Hospital.name h)));
    [|apply candidates_named].
  intros x y Hx Hy. rewrite relevanceCompare_named by done. eauto.
Qed.

(** ** Responses *)




(** ** Query parameters of any type *)























Section RunQuery.
Variable localeCompare : string -> string -> Z.
Variables (σ : server) (hs : list hospital).
Hypothesis store_hospitals : heap σ !! hospitals σ = Some (CArray hs).

#[local] Hint Resolve store_hospitals : run.



End RunQuery.














Lemma keeps_arrayFilterR σ0 p (l : loc) :
  keeps σ0 (arrayFilterR p l) (fresh σ0).
Proof.
  unfold arrayFilterR. eapply keeps_bind; [apply keeps_readArray|].
  intros hs _. eapply keeps_bind; [apply keeps_lift|].
  intros kept _. apply keeps_alloc.
Qed.

Ltac keeps_query_step :=
  lazymatch goal with
  | |- keeps _ (arrayFilterR _ _) _ => apply keeps_arrayFilterR
  | _ => keeps_step
  end.

Lemma keeps_byDistrictQuery (district : string) (locality : param)
    (σ0 : server) :
  keeps σ0 (byDistrictQuery district locality) (fun _ => True).
Proof. unfold byDistrictQuery. repeat keeps_query_step. Qed.

Lemma keeps_searchQuery localeCompare (query district locality : param)
    (σ0 : server) :
  keeps σ0 (searchQuery localeCompare query district locality) (fun _ => True).
Proof. unfold searchQuery. repeat keeps_query_step. Qed.

(** X21: whatever the types of the query parameters, and whether the
    answer is a result or an error, the district query and the search leave
    the Directory Store as it was. *)
Theorem parameters_leave_store (localeCompare : string -> string -> Z)
    (D : string) (locality query district l : param) (σ : server) :
  allocated σ ->
  directoryStore (byDistrictQuery D locality σ).2 = directoryStore σ /\
  directoryStore (searchQuery localeCompare query district l σ).2 =
  directoryStore σ.
Proof.
  intros Ha. split; apply preserves_store; try done.
  - now destruct (keeps_byDistrictQuery D locality σ σ (preserves_refl σ)).
  - now destruct (keeps_searchQuery localeCompare query district l σ σ
                    (preserves_refl σ)).
Qed.

Lemma parameters_leave_store_witness :
  directoryStore (byDistrictQuery "pune" Compound sampleServer).2 =
  directoryStore sampleServer /\
  directoryStore
    (searchQuery defaultCompare (Text "apollo") Compound Absent sampleServer).2 =
  directoryStore sampleServer.
Proof.
  apply (parameters_leave_store defaultCompare "pune" Compound (Text "apollo")
           Compound Absent sampleServer).
  vm_compute. repeat split.
Defined.

(** ** Letter case of the parameters *)

Lemma provided_lower (o : option string) :
  provided (toLowerCase <$> o) = toLowerCase <$> provided o.
Proof.
  destruct o as [s|]; [|done]. simpl.
  destruct (String.eqb_spec s "") as [->|Hs]; [done|].
  destruct (String.eqb_spec (toLowerCase s) "") as [H|_]; [|done].
  now apply (proj1 (toLowerCase_empty s)) in H.
Qed.

Lemma lowerEquals_lower (field : option string) (s : string) :
  lowerEquals field (toLowerCase s) = lowerEquals field s.
Proof. unfold lowerEquals. now rewrite toLowerCase_idempotent. Qed.

Lemma lowerContains_lower (field : option string) (s : string) :
  lowerContains field (toLowerCase s) = lowerContains field s.
Proof. unfold lowerContains. now rewrite toLowerCase_idempotent. Qed.

Lemma inLocality_lower (l : string) (h : hospital) :
  inLocality (toLowerCase l) h = inLocality l h.
Proof. unfold inLocality. now rewrite toLowerCase_idempotent. Qed.

Lemma relevanceCompare_lower localeCompare q locality a b :
  relevanceCompare localeCompare (toLowerCase q) (toLowerCase <$> locality) a b =
  relevanceCompare localeCompare q locality a b.
Proof.
  unfold relevanceCompare, exactMatch. rewrite toLowerCase_idempotent, provided_lower.
  destruct (provided locality) as [l|]; simpl; [|done].
  now rewrite !inLocality_lower.
Qed.

Lemma candidates_lower q district locality hs :
  candidates (toLowerCase q) (toLowerCase <$> district) (toLowerCase <$> locality) hs =
  candidates q district locality hs.
Proof.
  unfold candidates. rewrite !provided_lower.
  rewrite (List.filter_ext _ _ (fun h => lowerContains_lower (Hospital.name h) q)).
  destruct (provided district) as [d|], (provided locality) as [l|]; simpl;
    rewrite ?(List.filter_ext _ _
                (fun h => lowerContains_lower (Hospital.subdistrict h) l)),
            ?(List.filter_ext _ _
                (fun h => lowerEquals_lower (Hospital.district h) d));
    reflexivity.
Qed.

Lemma answer_lowerRequest localeCompare (r : request) hs ds ss :
  answer localeCompare (lowerRequest r) hs ds ss = answer localeCompare r hs ds ss.
Proof.
  destruct r as [| district locality | state | state | query district locality
                 | | | id | locality]; cbn [lowerRequest answer]; try reflexivity.
  - change (Some (toLowerCase district)) with (toLowerCase <$> Some district).
    rewrite !provided_lower.
    destruct (provided (Some district)) as [d|]; [|done]. cbn [fmap option_fmap option_map].
    rewrite (List.filter_ext _ _ (fun h => lowerEquals_lower (Hospital.district h) d)).
    destruct (provided locality) as [l|]; [|done]. cbn [fmap option_fmap option_map].
    unfold stablePartition.
    rewrite (List.filter_ext _ _ (inLocality_lower l)),
      (List.filter_ext _ _ (fun h => f_equal negb (inLocality_lower l h))).
    reflexivity.
  - change (Some (toLowerCase state)) with (toLowerCase <$> Some state).
    rewrite !provided_lower.
    destruct (provided (Some state)) as [s|]; [|done]. cbn [fmap option_fmap option_map].
    now rewrite (List.filter_ext _ _ (fun h => lowerEquals_lower (Hospital.state h) s)).
  - change (Some (toLowerCase state)) with (toLowerCase <$> Some state).
    rewrite !provided_lower.
    destruct (provided (Some state)) as [s|]; [|done]. cbn [fmap option_fmap option_map].
    now rewrite (List.filter_ext _ _ (fun h => lowerEquals_lower (Hospital.state h) s)).
  - rewrite provided_lower.
    destruct (provided query) as [q|]; [|done]. cbn [fmap option_fmap option_map].
    rewrite candidates_lower.
    rewrite (sortBy_ext _ (relevanceCompare localeCompare q locality));
      [done|]. intros x y _ _. apply relevanceCompare_lower.
  - change (Some (toLowerCase locality)) with (toLowerCase <$> Some locality).
    rewrite !provided_lower.
    destruct (provided (Some locality)) as [l|]; [|done].
    cbn [fmap option_fmap option_map].
    now rewrite (List.filter_ext _ _
                   (fun h => lowerContains_lower (Hospital.subdistrict h) l)).
Qed.

(** X10: the text parameters of the queries (district, state, locality,
    search query) are case-insensitive: two requests whose parameters
    differ only in letter case get the same response.  The identifier of a
    lookup is compared as it is. *)
Theorem parameters_ignore_case (localeCompare : string -> string -> Z)
    (σ : server) (hs : list hospital) (ds ss : list string) (r r' : request) :
  holds σ hs ds ss ->
  lowerRequest r = lowerRequest r' ->
  (handle localeCompare r σ).1 = (handle localeCompare r' σ).1.
Proof.
  intros (Hh & Hd & Hs) Hr.
  rewrite !(handle_answer localeCompare σ hs ds ss Hh Hd Hs).
  rewrite <- (answer_lowerRequest _ r), <- (answer_lowerRequest _ r'), Hr.
  reflexivity.
Qed.

Lemma parameters_ignore_case_witness :
  (handle defaultCompare (Search (Some "APOLLO") (Some "Pune") None) sampleServer).1 =
  (handle defaultCompare (Search (Some "apollo") (Some "PUNE") None) sampleServer).1.
Proof.
  apply (parameters_ignore_case defaultCompare sampleServer sampleStore
           ["Pune"; "PUNE"] ["Maharashtra"]).
  - vm_compute. repeat split.
  - reflexivity.
Defined.

(** ** The filter queries *)

Lemma lowerContains_inLocality (l : string) (h : hospital) :
  l <> "" -> lowerContains (Hospital.subdistrict h) l = inLocality l h.
Proof.
  intros Hl. unfold lowerContains, inLocality, optIncludes.
  destruct (Hospital.subdistrict h) as [s|]; [|done]. cbn [truthyS].
  destruct (String.eqb_spec s "") as [->|_]; [|reflexivity].
  cbn [negb andb]. change (toLowerCase "") with "". cbn [includes].
  destruct (toLowerCase l) eqn:E; [|reflexivity].
  now apply (proj1 (toLowerCase_empty l)) in E.
Qed.

(** X11: with their parameter given, the state query answers with the
    records whose state equals it case-insensitively, the locality query
    with those whose subdistrict contains it, and the district query
    without a locality with those whose district equals it: in each case
    all of them and in the order of the store.  A record without the field
    is in none of these answers. *)
Theorem filters_keep_store_order (σ : server) (hs : list hospital) (p : string) :
  heap σ !! hospitals σ = Some (CArray hs) ->
  p <> "" ->
  (byState p σ).1 =
    Ok (respond 200 (Hospitals
      (List.filter (fun h => fieldEquals (Hospital.state h) p) hs))) /\
  (byLocality p σ).1 =
    Ok (respond 200 (Hospitals (List.filter (inLocality p) hs))) /\
  (forall locality, provided locality = None ->
     (byDistrict p locality σ).1 =
       Ok (respond 200 (Hospitals
         (List.filter (fun h => fieldEquals (Hospital.district h) p) hs)))).
Proof.
  intros Hh Hp. split; [|split].
  - rewrite (byState_answer (fun _ _ => 0) σ hs [] [] Hh). cbn [answer].
    rewrite provided_Some by done.
    now rewrite (List.filter_ext _ _
      (fun h => lowerEquals_fieldEquals (Hospital.state h) p Hp)).
  - rewrite (byLocality_answer (fun _ _ => 0) σ hs [] [] Hh). cbn [answer].
    rewrite provided_Some by done.
    now rewrite (List.filter_ext _ _ (fun h => lowerContains_inLocality p h Hp)).
  - intros locality Hl.
    rewrite (byDistrict_answer (fun _ _ => 0) σ hs [] [] Hh). cbn [answer].
    rewrite provided_Some, Hl by done.
    now rewrite (List.filter_ext _ _
      (fun h => lowerEquals_fieldEquals (Hospital.district h) p Hp)).
Qed.

Lemma filters_keep_store_order_witness :
  (byLocality "HAVELI" sampleServer).1 =
  Ok (respond 200 (Hospitals
    [ sampleHospital "1" "Sahyadri Hospital" "Pune" "Haveli";
      sampleHospital "3" "Apollo Hospital Annexe" "PUNE" "Haveli" ])).
Proof.
  destruct (filters_keep_store_order sampleServer sampleStore "HAVELI")
    as (_ & H & _).
  - vm_compute. reflexivity.
  - discriminate.
  - rewrite H. vm_compute. reflexivity.
Defined.

(** ** The lists of districts and states *)

Lemma elem_of_toSet_acc (l acc : list string) (x : string) :
  x ∈ fold_left (fun acc s => addToSet s acc) l acc <-> x ∈ acc \/ x ∈ l.
Proof.
  revert acc. induction l as [|s l IH]; intros acc; simpl.
  - rewrite elem_of_nil. tauto.
  - rewrite IH, elem_of_addToSet, elem_of_cons. tauto.
Qed.

Lemma NoDup_toSet_acc (l acc : list string) :
  NoDup acc -> NoDup (fold_left (fun acc s => addToSet s acc) l acc).
Proof.
  revert acc. induction l as [|s l IH]; intros acc H; simpl; [done|].
  now apply IH, NoDup_addToSet.
Qed.

Lemma elem_of_toSet (l : list string) (x : string) : x ∈ toSet l <-> x ∈ l.
Proof. unfold toSet. rewrite elem_of_toSet_acc, elem_of_nil. tauto. Qed.

Lemma NoDup_toSet (l : list string) : NoDup (toSet l).
Proof. apply NoDup_toSet_acc. constructor. Qed.

(** A duplicate-free array comes out of the default sort strictly
    ascending in code-unit order, with the same members. *)
Lemma sortedStrings_ascending (ss : list string) :
  NoDup ss ->
  exists sorted,
    sortedStrings ss = Ok sorted /\
    Permutation sorted ss /\
    StronglySorted (fun a b => String.compare a b = Lt) sorted.
Proof.
  intros Hnd.
  destruct (sortBy_sorted defaultCompare
              (fun a b => Ok (defaultCompare a b)) (fun _ => True)
              (fun x y _ _ => eq_refl) ss)
    as (sorted & Hs & Hperm & Hsorted & _).
  { apply List.Forall_forall. done. }
  exists sorted. split; [exact Hs|]. split; [exact Hperm|].
  assert (NoDup sorted) as Hnd' by now rewrite Hperm.
  clear Hs Hperm Hnd. induction Hsorted as [|x l Hl IH Hx]; [constructor|].
  apply NoDup_cons in Hnd' as [Hxl Hnd']. constructor; [now apply IH|].
  rewrite List.Forall_forall in Hx |- *. intros y Hy. specialize (Hx y Hy).
  unfold defaultCompare in Hx. destruct (String.compare x y) eqn:Hc; [|done|lia].
  apply String.compare_eq_iff in Hc. subst.
  now apply list_elem_of_In in Hy.
Qed.

(** X12: for a given state the list of districts is strictly ascending in
    code-unit order, so free of duplicates, and its members are exactly
    the non-empty districts of the records whose state equals the given
    one case-insensitively. *)
Theorem districtsForState_sorted_distinct (σ : server) (hs : list hospital)
    (S : string) :
  heap σ !! hospitals σ = Some (CArray hs) ->
  S <> "" ->
  exists names,
    (districtsForState S σ).1 = Ok (respond 200 (Strings names)) /\
    StronglySorted (fun a b => String.compare a b = Lt) names /\
    forall x, x ∈ names <->
      x <> "" /\
      exists h, h ∈ hs /\ fieldEquals (Hospital.state h) S = true /\
                Hospital.district h = Some x.
Proof.
  intros Hh HS.
  rewrite (districtsForState_answer (fun _ _ => 0) σ hs [] [] Hh). cbn [answer].
  rewrite provided_Some by done.
  destruct (sortedStrings_ascending _ (NoDup_toSet
    (omap (fun h => provided (Hospital.district h))
       (List.filter (fun h => lowerEquals (Hospital.state h) S) hs))))
    as (names & -> & Hperm & Hsorted).
  exists names. split; [done|]. split; [done|]. intros x.
  rewrite Hperm, elem_of_toSet, list_elem_of_omap.
  setoid_rewrite list_elem_of_In. setoid_rewrite filter_In.
  setoid_rewrite (lowerEquals_fieldEquals _ S HS). split.
  - intros (h & (Hin & Hst) & Hp). unfold provided in Hp.
    destruct (Hospital.district h) as [d|] eqn:Hd; [|discriminate].
    destruct (String.eqb_spec d "") as [->|Hne]; [discriminate|].
    injection Hp as <-. eauto 6.
  - intros (Hx & h & Hin & Hst & Hd). exists h. split; [done|].
    rewrite Hd. now apply provided_Some.
Qed.

Lemma districtsForState_sorted_distinct_witness :
  (districtsForState "maharashtra" sampleServer).1 =
  Ok (respond 200 (Strings ["PUNE"; "Pune"])).
Proof.
  destruct (districtsForState_sorted_distinct sampleServer sampleStore "maharashtra")
    as (names & H & _).
  - vm_compute. reflexivity.
  - discriminate.
  - vm_compute. reflexivity.
Defined.

(** X13: after a load at startup the lists of all districts and of all
    states are strictly ascending in code-unit order, so free of
    duplicates, and list exactly the non-empty districts and states of the
    records in the store; every district that [districtsForState] lists
    for some state is in the list of all districts. *)
Theorem startup_lists (rows : list RawRow) :
  let σ := (loadHospitalData (Some rows) initial).2 in
  exists dnames snames,
    (allDistricts σ).1 = Ok (respond 200 (Strings dnames)) /\
    (allStates σ).1 = Ok (respond 200 (Strings snames)) /\
    StronglySorted (fun a b => String.compare a b = Lt) dnames /\
    StronglySorted (fun a b => String.compare a b = Lt) snames /\
    (forall x, x ∈ dnames <->
       x <> "" /\ exists h, h ∈ omap accept rows /\ Hospital.district h = Some x) /\
    (forall x, x ∈ snames <->
       x <> "" /\ exists h, h ∈ omap accept rows /\ Hospital.state h = Some x) /\
    (forall S names x,
       (districtsForState S σ).1 = Ok (respond 200 (Strings names)) ->
       x ∈ names -> x ∈ dnames).
Proof.
  cbv zeta.
  destruct (startup_sets_spec rows) as (ds & ss & Hd & Hs & Nd & Ns & Md & Ms).
  destruct (startup_store rows) as (ds' & ss' & (Hh & _) & _).
  destruct (sortedStrings_ascending ds Nd) as (dnames & Ed & Pd & Sd).
  destruct (sortedStrings_ascending ss Ns) as (snames & Es & Ps & Ss).
  exists dnames, snames.
  rewrite (allDistricts_answer (fun _ _ => 0) _ [] ds [] Hd),
    (allStates_answer (fun _ _ => 0) _ [] [] ss Hs). cbn [answer].
  rewrite Ed, Es. do 4 (split; [done|]). split; [|split].
  - intros x. rewrite Pd. apply Md.
  - intros x. rewrite Ps. apply Ms.
  - intros S names x Hresp Hx.
    rewrite (districtsForState_answer (fun _ _ => 0) _ _ [] [] Hh) in Hresp.
    cbn [answer] in Hresp.
    destruct (provided (Some S)) as [s|]; [|discriminate].
    match type of Hresp with
    | context [sortedStrings ?l] =>
        destruct (sortedStrings l) as [sorted|] eqn:Hsorted; [|discriminate]
    end.
    simplify_eq. apply list_elem_of_In in Hx.
    apply (Permutation_in _ (sortBy_permutation _ _ _ Hsorted)) in Hx.
    apply list_elem_of_In in Hx.
    apply elem_of_toSet, list_elem_of_omap in Hx as (h & Hin & Hp).
    apply list_elem_of_In, filter_In in Hin as [Hin _].
    rewrite Pd. apply Md. unfold provided in Hp.
    destruct (Hospital.district h) as [d|] eqn:Hdist; [|discriminate].
    destruct (String.eqb_spec d "") as [->|Hne]; [discriminate|].
    injection Hp as <-. split; [done|]. exists h. split; [|done].
    now apply list_elem_of_In.
Qed.

(** ** Ranking and filtering *)

Lemma Permutation_filter {A} (p : A -> bool) (l l' : list A) :
  Permutation l l' -> Permutation (List.filter p l) (List.filter p l').
Proof.
  induction 1 as [|x l l' _ IH|x y l|l l' l'' _ IH1 _ IH2]; simpl.
  - constructor.
  - destruct (p x); [now constructor|done].
  - destruct (p x), (p y); try reflexivity. apply perm_swap.
  - now rewrite IH1.
Qed.

Lemma StronglySorted_filter {A} (R : A -> A -> Prop) (p : A -> bool) (l : list A) :
  StronglySorted R l -> StronglySorted R (List.filter p l).
Proof.
  induction 1 as [|x l Hl IH Hx]; simpl; [constructor|].
  destruct (p x); [|done]. constructor; [done|].
  rewrite List.Forall_forall in Hx |- *. intros y Hy.
  apply filter_In in Hy as [Hy _]. now apply Hx.
Qed.

Lemma filter_comm {A} (p q : A -> bool) (l : list A) :
  List.filter p (List.filter q l) = List.filter q (List.filter p l).
Proof.
  rewrite !filter_and. apply List.filter_ext. intros x. apply andb_comm.
Qed.

Lemma filter_true {A} (p : A -> bool) (l : list A) :
  (forall x, p x = true) -> List.filter p l = l.
Proof.
  intros H. induction l as [|x l IH]; simpl; [done|]. now rewrite H, IH.
Qed.

Section SortFilter.
Context {A : Type}.
Variable f : A -> A -> Z.
Context `{!Consistent f}.
Variable cmp : A -> A -> result Z.
Variable dom : A -> Prop.
Hypothesis cmp_f : forall x y, dom x -> dom y -> cmp x y = Ok (f x y).

(** Sorting a part of an array gives that part of the sorted array: a
    stable sort with a consistent comparator commutes with [filter]. *)
Lemma sortBy_filter (p : A -> bool) (l r : list A) :
  List.Forall dom l -> sortBy cmp l = Ok r ->
  sortBy cmp (List.filter p l) = Ok (List.filter p r).
Proof.
  intros Hl Hr.
  destruct (sortBy_sorted f cmp dom cmp_f l Hl) as (r0 & Hr0 & Hperm & Hsorted & Hst).
  rewrite Hr in Hr0. injection Hr0 as <-.
  assert (List.Forall dom (List.filter p l)) as Hl'.
  { rewrite List.Forall_forall in Hl |- *. intros x Hx.
    apply filter_In in Hx as [Hx _]. now apply Hl. }
  destruct (sortBy_sorted f cmp dom cmp_f _ Hl')
    as (r' & Hr' & Hperm' & Hsorted' & Hst').
  rewrite Hr'. f_equal. apply (stable_sort_unique f).
  - rewrite Hperm'. symmetry. now apply Permutation_filter.
  - done.
  - now apply StronglySorted_filter.
  - intros z. rewrite Hst', (filter_comm _ p r), Hst. apply filter_comm.
Qed.
End SortFilter.

Lemma candidates_passesFilters (q : string) (district locality : option string)
    (hs : list hospital) :
  candidates q district locality hs =
  List.filter (passesFilters district locality) (candidates q None None hs).
Proof.
  unfold candidates, passesFilters. cbn [provided].
  destruct (provided district) as [d|], (provided locality) as [l|].
  - now rewrite filter_and.
  - apply List.filter_ext. intros h. now rewrite andb_true_r.
  - reflexivity.
  - symmetry. now apply filter_true.
Qed.

(** In a search with a locality every candidate lies in the locality, so
    the locality level of the comparator decides nothing. *)
Lemma relevanceCompare_filtered localeCompare (q : string)
    (district locality : option string) (a b : hospital) :
  passesFilters district locality a = true ->
  passesFilters district locality b = true ->
  relevanceCompare localeCompare q locality a b =
  relevanceCompare localeCompare q None a b.
Proof.
  unfold passesFilters, relevanceCompare. intros Ha Hb. cbn [provided].
  destruct (provided locality) as [l|]; [|reflexivity].
  apply andb_true_iff in Ha as [_ Ha]. apply andb_true_iff in Hb as [_ Hb].
  assert (forall h, lowerContains (Hospital.subdistrict h) l = true ->
                    inLocality l h = true) as Hin.
  { intros h. unfold lowerContains, inLocality, optIncludes.
    destruct (Hospital.subdistrict h); [|discriminate].
    intros H. now apply andb_true_iff in H as [_ H]. }
  rewrite (Hin a Ha), (Hin b Hb). reflexivity.
Qed.

(** X14: the optional district and locality filters of a search commute
    with its ranking: a search with filters answers with the answer of the
    same search without filters, reduced to the records that pass them and
    in the same order. *)
Theorem search_filters_commute (localeCompare : string -> string -> Z)
    (σ : server) (hs : list hospital) (Q : string) (D L : option string) :
  Consistent localeCompare ->
  heap σ !! hospitals σ = Some (CArray hs) ->
  Q <> "" ->
  exists unfiltered,
    (search localeCompare (Some Q) None None σ).1 =
      Ok (respond 200 (Hospitals unfiltered)) /\
    (search localeCompare (Some Q) D L σ).1 =
      Ok (respond 200 (Hospitals (List.filter (passesFilters D L) unfiltered))).
Proof.
  intros Hlc Hh HQ.
  rewrite !(search_answer localeCompare σ hs [] [] Hh). cbn [answer].
  rewrite provided_Some by done.
  destruct (search_sort_total localeCompare Q None None hs) as [unfiltered Hu].
  rewrite Hu. exists unfiltered. split; [done|].
  rewrite candidates_passesFilters.
  rewrite (sortBy_ext _ (relevanceCompare localeCompare Q None)).
  - rewrite (sortBy_filter (relevance localeCompare Q None) _
               (fun h => is_Some (Hospital.name h))
               (relevanceCompare_named localeCompare Q None)
               _ _ unfiltered (candidates_named Q None None hs) Hu).
    reflexivity.
  - intros x y Hx Hy. apply filter_In in Hx as [_ Hx], Hy as [_ Hy].
    now apply (relevanceCompare_filtered _ _ D).
Qed.

Lemma search_filters_commute_witness :
  exists unfiltered,
    (search defaultCompare (Some "apollo") None None sampleServer).1 =
      Ok (respond 200 (Hospitals unfiltered)) /\
    (search defaultCompare (Some "apollo") (Some "pune") (Some "kothrud")
            sampleServer).1 =
      Ok (respond 200 (Hospitals
            (List.filter (passesFilters (Some "pune") (Some "kothrud"))
                         unfiltered))).
Proof.
  apply (search_filters_commute defaultCompare sampleServer sampleStore).
  - apply defaultCompare_consistent.
  - vm_compute. reflexivity.
  - discriminate.
Defined.

(** ** Hospital details *)

Example split_ex :
  split "," "a,b" = ["a"; "b"] /\ split "," "" = [""] /\
  split "," "a," = ["a"; ""] /\ split "," ",a" = [""; "a"].
Proof. repeat split. Qed.









Example costEstimates_ex :
  costEstimates equipped =
  {| CostEstimates.baseTreatmentMin := 200000;
     CostEstimates.baseTreatmentMax := 400000;
     CostEstimates.roomRentStandard := 2000;
     CostEstimates.roomRentDeluxe := 5000;
     CostEstimates.facilities := ["ICU"; "Pharmacy"; "Blood Bank"];
     CostEstimates.specialties := ["Oncology"] |}.
Proof. vm_compute. reflexivity. Qed.

(** X16: the details operation decides as the lookup by identifier does:
    it has the same status and error for an empty or unknown identifier
    and for a store it cannot read, and for a known identifier it answers
    with the record that the lookup finds, together with its cost
    estimates.  Neither operation changes the server. *)
Theorem details_follows_byId (id : string) (σ : server) :
  (details id σ).2 = σ /\ (byId id σ).2 = σ /\
  exists resp,
    (byId id σ).1 = Ok resp /\ (details id σ).1 = Ok (withEstimates resp).
Proof.
  unfold details, byId. destruct (provided (Some id)) as [i|].
  - unfold try_catch, mbind, M_bind, mret, M_ret, getHospitals, readArray.
    cbn beta iota.
    destruct (heap σ !! hospitals σ) as [[hs|ss|ss]|]; cbn beta iota;
      try (repeat split; eexists; split; reflexivity).
    destruct (List.find (idIs i) hs) as [h|];
      repeat split; eexists; split; reflexivity.
  - repeat split. eexists. split; reflexivity.
Qed.

(** ** Bed and doctor counts *)


Lemma digitChar_plain (d : nat) :
  (d < 10)%nat ->
  isWhiteSpace (digitChar d) = false /\
  digitChar d <> "-"%char /\ digitChar d <> "+"%char /\
  digitChar d <> "x"%char /\ digitChar d <> "X"%char.
Proof.
  intros H. do 10 (destruct d as [|d]; [repeat split; discriminate|]). lia.
Qed.









(** ** More on the store and its lists *)

Lemma lowerEquals_self (x : string) :
  x <> "" -> lowerEquals (Some x) x = true.
Proof.
  intros Hx. unfold lowerEquals. cbn [truthyS].
  destruct (String.eqb_spec x "") as [->|_]; [done|].
  apply String.eqb_refl.
Qed.

(** X18: the lists of districts and states agree with the records: after a
    load at startup, the district query for a district that [allDistricts]
    lists, and the state query for a state that [allStates] lists, answer
    with at least one record, one whose district (state) is the listed
    string itself. *)
Theorem listed_names_have_hospitals (rows : list RawRow) (names : list string)
    (x : string) :
  let σ := (loadHospitalData (Some rows) initial).2 in
  x ∈ names ->
  ((allDistricts σ).1 = Ok (respond 200 (Strings names)) ->
   exists h found,
     (byDistrict x None σ).1 = Ok (respond 200 (Hospitals found)) /\
     In h found /\ Hospital.district h = Some x) /\
  ((allStates σ).1 = Ok (respond 200 (Strings names)) ->
   exists h found,
     (byState x σ).1 = Ok (respond 200 (Hospitals found)) /\
     In h found /\ Hospital.state h = Some x).
Proof.
  cbv zeta. intros Hx.
  destruct (startup_sets_spec rows) as (ds & ss & Hd & Hs & _ & _ & Md & Ms).
  destruct (startup_store rows) as (ds' & ss' & (Hh & _) & _).
  split; intros Hresp.
  - rewrite (allDistricts_answer (fun _ _ => 0) _ [] ds [] Hd) in Hresp.
    cbn [answer] in Hresp.
    destruct (sortedStrings ds) as [sorted|] eqn:Hsorted; [|discriminate].
    simplify_eq. apply list_elem_of_In in Hx.
    apply (Permutation_in _ (sortBy_permutation _ _ _ Hsorted)) in Hx.
    apply list_elem_of_In, Md in Hx as (Hne & h & Hin & Hdist).
    exists h. eexists. rewrite (byDistrict_answer (fun _ _ => 0) _ _ [] [] Hh).
    cbn [answer]. rewrite provided_Some by done. cbn [provided].
    split; [reflexivity|]. split; [|done].
    apply filter_In. split; [now apply list_elem_of_In|].
    rewrite Hdist. now apply lowerEquals_self.
  - rewrite (allStates_answer (fun _ _ => 0) _ [] [] ss Hs) in Hresp.
    cbn [answer] in Hresp.
    destruct (sortedStrings ss) as [sorted|] eqn:Hsorted; [|discriminate].
    simplify_eq. apply list_elem_of_In in Hx.
    apply (Permutation_in _ (sortBy_permutation _ _ _ Hsorted)) in Hx.
    apply list_elem_of_In, Ms in Hx as (Hne & h & Hin & Hst).
    exists h. eexists. rewrite (byState_answer (fun _ _ => 0) _ _ [] [] Hh).
    cbn [answer]. rewrite provided_Some by done.
    split; [reflexivity|]. split; [|done].
    apply filter_In. split; [now apply list_elem_of_In|].
    rewrite Hst. now apply lowerEquals_self.
Qed.

Lemma listed_names_have_hospitals_witness :
  exists h found,
    (byDistrict "PUNE" None sampleServer).1 = Ok (respond 200 (Hospitals found)) /\
    In h found /\ Hospital.district h = Some "PUNE".
Proof.
  apply (listed_names_have_hospitals sampleRows ["PUNE"; "Pune"] "PUNE").
  - apply list_elem_of_here.
  - vm_compute. reflexivity.
Defined.

Lemma onData_unaccepted (results : loc) (data : RawRow) (σ : server) :
  accept data = None -> onData results data σ = (Ok (), σ).
Proof.
  intros H. rewrite onData_outcome. unfold accept in H.
  destruct (sanitizeData data) as [raw|]; [|reflexivity].
  now destruct (qualifies (makeHospital raw)) as [[]|].
Qed.

(** X19: a row that is not accepted, whether the classifier rejects it or
    an error is raised, leaves no trace: the load ends in the same state,
    records and district and state sets, as the load of the rows without
    it. *)
Theorem unaccepted_row_is_inert (rows1 rows2 : list RawRow) (row : RawRow)
    (σ : server) :
  accept row = None ->
  loadHospitalData (Some (rows1 ++ row :: rows2)%list) σ =
  loadHospitalData (Some (rows1 ++ rows2)%list) σ.
Proof.
  intros Hrow.
  assert (forall results σ',
            forEach (onData results) (rows1 ++ row :: rows2) σ' =
            forEach (onData results) (rows1 ++ rows2) σ') as Hskip.
  { intros results. induction rows1 as [|r rows1 IH]; intros σ'; simpl.
    - unfold mbind, M_bind. now rewrite onData_unaccepted.
    - unfold mbind, M_bind.
      destruct (onData results r σ') as [[[]|e] σ'']; [apply IH | reflexivity]. }
  unfold loadHospitalData, mbind, M_bind, alloc, try_catch.
  now rewrite Hskip.
Qed.

Lemma unaccepted_row_is_inert_witness :
  loadHospitalData
    (Some ([cityGeneral] ++ sampleRow "9" "Sunrise Nursing Home" "Nashik" "Sinnar"
             :: [cityGeneral])%list) initial =
  loadHospitalData (Some ([cityGeneral] ++ [cityGeneral])%list) initial.
Proof.
  apply (unaccepted_row_is_inert [cityGeneral] [cityGeneral]).
  vm_compute. reflexivity.
Defined.
